(** * Shallow embedding of the lp_bot rebalancing core

    Sources embedded here:
    - [monitor.js] (PositionMonitor): checkPositionStatus, calculateNewRange,
      the per-position body of checkAllPositions, findPool,
      getOutOfRangePositions;
    - [rebalancer.js] (Rebalancer): getPriceFromTickAdjusted,
      calculateOptimalRatio, rebalance (its stages, the swap decision and
      the calls it makes), both swapTokens variants (direct Universal Router
      and Kyber aggregator) with their approvals and nonce-expired retry,
      createPosition (approvals and mint), the slippage floors of
      swapTokens and createPosition, validateKyberRouter;
    - [index.js] (AerodromeAutoBalancer): runCheckCycle, its
      isCheckInProgress latch and scheduleNextCheck, the candidate and auto-stake selection of
      checkAndRebalance, the range of checkAndCreatePositionFromWallet;
    - [web3.js] (Web3Manager): getGasPrice, sendTransaction (gas limit and
      the NonceManager signer), getPool and getCurrentPrice (pool cache),
      approveToken;
    - [config.js]: the [|| default] fallbacks of slippageBps,
      rangeMultiplier and rebalanceThreshold, kyber.allowedRouters.

    JS numbers are IEEE-754 binary64 values and are modelled with
    [PrimFloat] where the code computes with them: the range of
    calculateNewRange and of the wallet bootstrap, and the square-root price
    math of calculateOptimalRatio.  Percentages compared against the
    rebalance threshold are modelled with exact rationals [Q].  BigInt
    arithmetic is modelled with [Z]. *)

From Stdlib Require Import ZArith QArith Qround Lia List Bool Floats Sorted.
From Stdlib Require Ascii.
Import ListNotations.

Set Warnings "-inexact-float".

(* ================================================================= *)
(** ** Tick constants *)

Definition MIN_TICK : Z := -887272.
Definition MAX_TICK : Z := 887272.

(* ================================================================= *)
(** ** Math.floor and Math.ceil on binary64 *)

Module JsMath.

Open Scope float_scope.

(** [Number(z)] for an integer of magnitude below 2^53 (exact). *)
Definition Z_to_float (z : Z) : float :=
  if (z <? 0)%Z then - PrimFloat.of_uint63 (Uint63.of_Z (- z))
  else PrimFloat.of_uint63 (Uint63.of_Z z).

(** [Math.floor(x)]: [NaN], the infinities, the zeros and every finite
    value with a non-negative binary exponent (an integer already) are
    returned as they are; otherwise [x = (-1)^s * m * 2^e] with [e < 0] and
    [|x| < 2^53], and the floor is the integer part of [m / 2^-e], minus one
    for an inexact negative value. *)
Definition Math_floor (x : float) : float :=
  match Prim2SF x with
  | S754_finite s m e =>
    if (0 <=? e)%Z then x
    else
      let q := Z.shiftr (Zpos m) (- e) in
      if s then
        let exact := (Z.shiftl q (- e) =? Zpos m)%Z in
        - Z_to_float (if exact then q else q + 1)
      else Z_to_float q
  | _ => x
  end.

(** [Math.ceil(x)] is [-Math.floor(-x)] (ECMAScript notes this identity;
    it yields [-0] for [-1 < x < 0]). *)
Definition Math_ceil (x : float) : float := - Math_floor (- x).

End JsMath.

(* ================================================================= *)
(** ** PositionMonitor.calculateNewRange (monitor.js) *)

Module Monitor.

Open Scope float_scope.

(** The returned [{ tickLower, tickUpper }]: JS numbers. *)
Record TickRange := mkTickRange { tickLower : float; tickUpper : float }.

(** [tickSpacing * Math.floor(30 / tickSpacing) * rangeMultiplier],
    evaluated left to right in binary64. *)
Definition rangeWidth (tickSpacing rangeMultiplier : float) : float :=
  tickSpacing * JsMath.Math_floor (30 / tickSpacing) * rangeMultiplier.

(** [calculateNewRange(currentTick, tickSpacing, rangeMultiplier)]; the two
    optional [existingTick*] arguments are unused by the source. *)
Definition calculateNewRange (currentTick tickSpacing rangeMultiplier : float)
    : TickRange :=
  let rangeWidth := rangeWidth tickSpacing rangeMultiplier in
  mkTickRange
    (JsMath.Math_floor ((currentTick - rangeWidth) / tickSpacing) * tickSpacing)
    (JsMath.Math_ceil ((currentTick + rangeWidth) / tickSpacing) * tickSpacing).

(** [config.rangeMultiplier] default: [2.6]. *)
Definition RANGE_MULTIPLIER : float := 2.6.

End Monitor.

(* ================================================================= *)
(** ** Rebalancer.calculateOptimalRatio (rebalancer.js) *)

Module Ratio.

Open Scope float_scope.

(** [Number(z)] for an integer tick or decimals value (exact below 2^53). *)
Definition Z_to_float (z : Z) : float :=
  if (z <? 0)%Z then - PrimFloat.of_uint63 (Uint63.of_Z (- z))
  else PrimFloat.of_uint63 (Uint63.of_Z z).

Fixpoint pow_pos (x : float) (p : positive) : float :=
  match p with
  | xH => x
  | xO q => let y := pow_pos x q in y * y
  | xI q => let y := pow_pos x q in x * (y * y)
  end.

(** [Math.pow(x, n)] / [x ** n] at an integer exponent.  ECMAScript fixes
    [Math.pow(x, 0) = 1]; for other exponents the result is
    implementation-approximated, and is modelled by binary exponentiation. *)
Definition Math_pow_int (x : float) (n : Z) : float :=
  match n with
  | Z0 => 1
  | Zpos p => pow_pos x p
  | Zneg p => 1 / pow_pos x p
  end.

(** [Math.pow(x, n / 2)] for an integer [n]: the exponent [n / 2] is an
    integer or a half-integer, both exact doubles. *)
Definition Math_pow_half (x : float) (n : Z) : float :=
  if Z.even n then Math_pow_int x (n / 2)%Z
  else PrimFloat.sqrt (Math_pow_int x n).

Definition tickBase : float := 1.0001.

(** [getPriceFromTickAdjusted(currentTick, decimals0, decimals1)] *)
Definition getPriceFromTickAdjusted (currentTick decimals0 decimals1 : Z)
    : float :=
  let priceRaw := Math_pow_int tickBase currentTick in
  let decimalAdjustment := Math_pow_int 10 (decimals0 - decimals1) in
  priceRaw * decimalAdjustment.

Record RatioResult := mkRatio {
  token0Ratio : float;
  token1Ratio : float;
  amount0PerAmount1 : option float;  (** present on the in-range result *)
  inRange : bool;
  belowRange : bool
}.

(** The pure part of [calculateOptimalRatio(poolAddress, tickLower,
    tickUpper)], after [slot0().tick] and both [decimals()] have been read. *)
Definition calculateOptimalRatio
    (currentTick tickLower tickUpper decimals0 decimals1 : Z) : RatioResult :=
  let sqrtPriceCurrent := Math_pow_half tickBase currentTick in
  let sqrtPriceLower := PrimFloat.sqrt (Math_pow_int tickBase tickLower) in
  let sqrtPriceUpper := PrimFloat.sqrt (Math_pow_int tickBase tickUpper) in
  if (currentTick <? tickLower)%Z then mkRatio 1 0 None false true
  else if (tickUpper <? currentTick)%Z then mkRatio 0 1 None false false
  else
    let amount0PerAmount1Raw :=
      (1 / sqrtPriceCurrent - 1 / sqrtPriceUpper)
        / (sqrtPriceCurrent - sqrtPriceLower) in
    let decimalAdjustment := Math_pow_int 10 (decimals1 - decimals0) in
    let amount0PerAmount1Human := amount0PerAmount1Raw * decimalAdjustment in
    let priceAdjusted :=
      getPriceFromTickAdjusted currentTick decimals0 decimals1 in
    let value0 := amount0PerAmount1Human * priceAdjusted in
    let value1 := 1 in
    let totalValue := value0 + value1 in
    mkRatio (value0 / totalValue) (value1 / totalValue)
      (Some amount0PerAmount1Human) true false.

(** JS [===] on numbers. *)
Definition js_eq (a b : float) : bool := PrimFloat.eqb a b.

Definition is_pair (r : RatioResult) (a b : float) : bool :=
  js_eq (token0Ratio r) a && js_eq (token1Ratio r) b.

End Ratio.

(* ================================================================= *)
(** ** PositionMonitor.checkPositionStatus and checkAllPositions *)

Module Status.

Record Position := mkPosition {
  tokenId : Z;
  token0 : Z;
  token1 : Z;
  pos_tickLower : Z;
  pos_tickUpper : Z;
  liquidity : Z;
  poolAddress : option Z;       (** set for staked positions *)
  isStaked : bool;
  gaugeAddress : option Z
}.

(** The object built by [checkPositionStatus].  [percentOutOfRange] is
    the number [(distance / range) * 100] before [toFixed(2)] formats it. *)
Record PositionStatus := mkStatus {
  isInRange : bool;
  isBelowRange : bool;
  isAboveRange : bool;
  percentOutOfRange : Q;
  st_tickLower : Z;
  st_tickUpper : Z;
  st_currentTick : Z
}.

Definition checkPositionStatus (position : Position) (currentTick : Z)
    : PositionStatus :=
  let tickLower := pos_tickLower position in
  let tickUpper := pos_tickUpper position in
  let isBelowRange := (currentTick <? tickLower)%Z in
  let isAboveRange := (tickUpper <? currentTick)%Z in
  let isInRange := negb isBelowRange && negb isAboveRange in
  let percentOutOfRange :=
    if isBelowRange then
      let range := (tickUpper - tickLower)%Z in
      let distance := (tickLower - currentTick)%Z in
      (inject_Z distance / inject_Z range) * 100
    else if isAboveRange then
      let range := (tickUpper - tickLower)%Z in
      let distance := (currentTick - tickUpper)%Z in
      (inject_Z distance / inject_Z range) * 100
    else 0 in
  mkStatus isInRange isBelowRange isAboveRange percentOutOfRange
    tickLower tickUpper currentTick.

(** What the chain calls of one loop iteration return; [None] is a call
    that throws. *)
Record Reads := mkReads {
  rd_findPool : option Z;          (** [findPool] result, [None] = null *)
  rd_getPool : option Z;           (** [web3.getPool] (its fee field) *)
  rd_slot0Tick : option Z;         (** [web3.getCurrentPrice().tick] *)
  rd_token0Symbol : option Z;      (** [web3.getToken(token0)] *)
  rd_token1Symbol : option Z       (** [web3.getToken(token1)] *)
}.

(** The fallback [new Contract(poolAddress, ['function tick() ...'])]:
    monitor.js never binds [Contract] (it only imports [ethers]), so the
    expression throws a ReferenceError, caught by the inner [catch (e2)]. *)
Definition fallbackTick (_ : Z) : option Z := None.

Record CheckedPosition := mkChecked {
  cp_tokenId : Z;
  cp_poolAddress : Z;
  cp_isStaked : bool;
  cp_status : PositionStatus
}.

(** One iteration of the [for] loop of [checkAllPositions]; [None] is a
    [continue] or an error caught by the loop's [catch]. *)
Definition checkOne (position : Position) (r : Reads)
    : option CheckedPosition :=
  let poolAddress :=
    match poolAddress position with
    | Some a => Some a
    | None => rd_findPool r
    end in
  match poolAddress with
  | None => None
  | Some pool =>
    match rd_getPool r with
    | None => None
    | Some _ =>
      let currentTick :=
        match rd_slot0Tick r with
        | Some t => t
        | None =>
          match fallbackTick pool with
          | Some t => t
          | None => 0%Z
          end
        end in
      let status := checkPositionStatus position currentTick in
      match rd_token0Symbol r, rd_token1Symbol r with
      | Some _, Some _ =>
        Some (mkChecked (tokenId position) pool (isStaked position) status)
      | _, _ => None
      end
    end
  end.

Fixpoint checkAllPositions (positions : list Position)
    (reads : Position -> Reads) : list CheckedPosition :=
  match positions with
  | [] => []
  | p :: ps =>
    match checkOne p (reads p) with
    | Some c => c :: checkAllPositions ps reads
    | None => checkAllPositions ps reads
    end
  end.

End Status.

(* ================================================================= *)
(** ** Web3Manager.getGasPrice (web3.js) *)

Module Gas.

Inductive GasStrategy := Auto | Legacy.

(** The returned fee object.  [LegacyFees] is whatever
    [provider.getFeeData()] returns. *)
Inductive GasPrice :=
| LegacyFees (gasPrice : Z)
| Eip1559 (maxFeePerGas maxPriorityFeePerGas : Z).

(** [baseFee] is [block.baseFeePerGas]; [priorityFee] and [maxGwei] are
    [parseUnits(String(config.priorityFeeGwei), 'gwei')] and
    [parseUnits(String(config.maxGasPrice), 'gwei')], all BigInt wei. *)
Definition getGasPrice (gasStrategy : GasStrategy)
    (feeData baseFee priorityFee maxGwei : Z) : GasPrice :=
  match gasStrategy with
  | Legacy => LegacyFees feeData
  | Auto =>
    let maxPriorityFeePerGas := priorityFee in
    let maxFeePerGas := (baseFee + maxPriorityFeePerGas)%Z in
    let maxFeePerGas :=
      if (maxGwei <? maxFeePerGas)%Z then maxGwei else maxFeePerGas in
    let maxPriorityFeePerGas :=
      if (maxFeePerGas <? maxPriorityFeePerGas)%Z then maxFeePerGas
      else maxPriorityFeePerGas in
    Eip1559 maxFeePerGas maxPriorityFeePerGas
  end.

End Gas.

(* ================================================================= *)
(** ** Transaction submission and swaps (web3.js, rebalancer.js) *)

Module Swap.

(** Failure kinds a call can raise.  [NonceExpired] is
    [code === 'NONCE_EXPIRED'] or a message matching
    [/nonce too low|nonce has already been used/i]; [CallFailed],
    [InsufficientReturn] and [TransferFromFailed] are messages matching
    [Call failed], [Return amount is not enough] and
    [TransferHelper: TRANSFER_FROM_FAILED]. *)
Inductive ErrKind :=
| NonceExpired
| CallFailed
| InsufficientReturn
| TransferFromFailed
| OtherError.

Definition isNonceExpired (e : ErrKind) : bool :=
  match e with NonceExpired => true | _ => false end.

(** [retryableRouteError] of the Kyber variant. *)
Definition retryableRouteError (e : ErrKind) : bool :=
  match e with
  | CallFailed | InsufficientReturn | TransferFromFailed => true
  | _ => false
  end.

(** The answer of the outside world (RPC node, aggregator API) to one
    external call, in call order.  [EvLow] is the answer of an allowance
    read that returns less than the amount asked for; any other call takes
    it as a plain success. *)
Inductive Event := EvOk | EvLow | EvErr (e : ErrKind).

(** ethers' [NonceManager]: a cached promise of the chain's pending nonce
    and a local delta; [reset()] drops both. *)
Record NonceManager := mkNM { noncePromise : option Z; delta : Z }.

Inductive Stage :=
| Starting | Unstaking | Withdrawing | CheckingBalances
| CalculatingRatio | Swapping | CreatingPosition | StakingStage.

Record World := mkWorld {
  chainNonce : Z;          (** the chain's next account nonce *)
  nm : NonceManager;
  oracle : list Event;     (** answers to the remaining external calls *)
  sentNonces : list Z;     (** nonces of submitted transactions, newest first *)
  resets : nat;            (** calls of [wallet.reset()] *)
  quotes : nat;            (** quote requests (route / quoter calls) *)
  stageLog : list Stage    (** writes of [pendingRebalance.stage], newest first *)
}.

Inductive Exn (A : Type) := Ok (a : A) | Throw (e : ErrKind).
Arguments Ok {A} a.
Arguments Throw {A} e.

(** Code that may throw, threading the world. *)
Definition M (A : Type) := World -> Exn A * World.

Definition ret {A} (a : A) : M A := fun w => (Ok a, w).
Definition bind {A B} (m : M A) (k : A -> M B) : M B :=
  fun w => match m w with
           | (Ok a, w') => k a w'
           | (Throw e, w') => (Throw e, w')
           end.
Definition throw {A} (e : ErrKind) : M A := fun w => (Throw e, w).
(** [try { m } catch (e) { h(e) }] *)
Definition catch {A} (m : M A) (h : ErrKind -> M A) : M A :=
  fun w => match m w with
           | (Ok a, w') => (Ok a, w')
           | (Throw e, w') => h e w'
           end.

Notation "x <- m ;; k" := (bind m (fun x => k))
  (at level 61, m at next level, right associativity).
Notation "m ;;; k" := (bind m (fun _ => k))
  (at level 61, right associativity).

Definition modify (f : World -> World) : M unit := fun w => (Ok tt, f w).

(** One external call: the next answer of the oracle (a call with no
    answer left succeeds). *)
Definition external : M unit :=
  fun w =>
    match oracle w with
    | [] => (Ok tt, w)
    | (EvOk | EvLow) :: rest =>
      (Ok tt, mkWorld (chainNonce w) (nm w) rest (sentNonces w) (resets w)
                (quotes w) (stageLog w))
    | EvErr e :: rest =>
      (Throw e, mkWorld (chainNonce w) (nm w) rest (sentNonces w) (resets w)
                  (quotes w) (stageLog w))
    end.

(** An allowance read ([allowance(owner, spender)]): [true] when the
    allowance is below the amount (a read with no answer left finds it
    sufficient). *)
Definition readAllowance : M bool :=
  fun w =>
    match oracle w with
    | [] => (Ok false, w)
    | EvOk :: rest =>
      (Ok false, mkWorld (chainNonce w) (nm w) rest (sentNonces w) (resets w)
                   (quotes w) (stageLog w))
    | EvLow :: rest =>
      (Ok true, mkWorld (chainNonce w) (nm w) rest (sentNonces w) (resets w)
                  (quotes w) (stageLog w))
    | EvErr e :: rest =>
      (Throw e, mkWorld (chainNonce w) (nm w) rest (sentNonces w) (resets w)
                  (quotes w) (stageLog w))
    end.

Definition setNM (n : NonceManager) : M unit :=
  modify (fun w => mkWorld (chainNonce w) n (oracle w) (sentNonces w)
                     (resets w) (quotes w) (stageLog w)).

Definition logSent (n : Z) : M unit :=
  modify (fun w => mkWorld (chainNonce w) (nm w) (oracle w)
                     (n :: sentNonces w) (resets w) (quotes w) (stageLog w)).

Definition confirm (n : Z) : M unit :=
  modify (fun w => mkWorld (n + 1)%Z (nm w) (oracle w) (sentNonces w)
                     (resets w) (quotes w) (stageLog w)).

Definition countQuote : M unit :=
  modify (fun w => mkWorld (chainNonce w) (nm w) (oracle w) (sentNonces w)
                     (resets w) (S (quotes w)) (stageLog w)).

Definition setStage (s : Stage) : M unit :=
  modify (fun w => mkWorld (chainNonce w) (nm w) (oracle w) (sentNonces w)
                     (resets w) (quotes w) (s :: stageLog w)).

Definition get : M World := fun w => (Ok w, w).

(** [NonceManager.sendTransaction]: take [getNonce('pending')] (the cached
    chain nonce plus delta), [increment()], then submit; the node rejects a
    nonce below the chain's next nonce with NONCE_EXPIRED, otherwise the
    oracle answers for submission and receipt.  The receipt is the nonce. *)
Definition nmSendTransaction : M Z :=
  w <- get ;;
  let base := match noncePromise (nm w) with
              | Some n => n
              | None => chainNonce w
              end in
  let nonce := (base + delta (nm w))%Z in
  setNM (mkNM (Some base) (delta (nm w) + 1)) ;;;
  logSent nonce ;;;
  if (nonce <? chainNonce w)%Z then throw NonceExpired
  else external ;;; confirm nonce ;;; ret nonce.

(** [wallet.reset()] *)
Definition reset : M unit :=
  setNM (mkNM None 0) ;;;
  modify (fun w => mkWorld (chainNonce w) (nm w) (oracle w) (sentNonces w)
                     (S (resets w)) (quotes w) (stageLog w)).

(** [Web3Manager.sendTransaction(tx)]: [getGasPrice] and [estimateGas]
    (one external call), then the signer's send and [wait]. *)
Definition sendTransaction : M Z :=
  external ;;; nmSendTransaction.

(** [Web3Manager.approveToken(token, spender, amount)]: read the allowance;
    when it is below [amount], [token.contract.approve(spender, MaxUint256)]
    is sent through the wallet, i.e. the [NonceManager] (nonce taken and
    incremented, no gas wrapper, no retry), and its receipt awaited. *)
Definition approveToken : M unit :=
  low <- readAllowance ;;
  if low then nmSendTransaction ;;; ret tt else ret tt.

(** Step 3b of the direct [swapTokens]: [permit2.allowance(...)] and, when
    the amount is below [amountIn], [permit2.approve(...)] through the
    wallet's [NonceManager], then [wait()]. *)
Definition permit2Approve : M unit :=
  low <- readAllowance ;;
  if low then nmSendTransaction ;;; ret tt else ret tt.

(** The submit block shared by both [swapTokens] variants:
    [try { receipt = await sendTransaction(tx) } catch (sendError) {
       if (!isNonceExpired) throw sendError; wallet.reset();
       receipt = await sendTransaction(tx) }]. *)
Definition submitWithNonceRetry : M Z :=
  catch sendTransaction
    (fun e => if isNonceExpired e then reset ;;; sendTransaction
              else throw e).

(** Direct Universal Router variant of [swapTokens]: read [tickSpacing],
    quote, read [PERMIT2], approve Permit2, set the Permit2 allowance, then
    submit; every error is caught and turned into [null] ([None]). *)
Definition swapTokensDirect (amountIn : Z) : M (option Z) :=
  if (amountIn =? 0)%Z then ret None
  else
    catch
      (external ;;;                 (* tickSpacing() *)
       countQuote ;;; external ;;;  (* quoteExactInputSingle *)
       external ;;;                 (* PERMIT2() *)
       approveToken ;;;             (* 3a: approveToken(tokenIn, permit2) *)
       permit2Approve ;;;           (* 3b: Permit2 allowance / approve *)
       r <- submitWithNonceRetry ;;
       ret (Some r))
      (fun _ => ret None).

(** [runSwapAttempt] of the Kyber variant: route (quote), build, router
    checks, approval, submit. *)
Definition runSwapAttempt : M Z :=
  countQuote ;;; external ;;;  (* getKyberRoute *)
  external ;;;                 (* buildKyberRoute, mismatch and allowlist *)
  approveToken ;;;             (* approveToken(tokenIn, router) *)
  submitWithNonceRetry.

(** Kyber aggregator variant of [swapTokens]. *)
Definition swapTokensKyber (amountIn : Z) : M (option Z) :=
  if (amountIn =? 0)%Z then ret None
  else
    catch
      (r <- catch runSwapAttempt
              (fun e => if retryableRouteError e then runSwapAttempt
                        else throw e) ;;
       ret (Some r))
      (fun _ => ret None).

(** [createPosition]: the pool reads, the two [approveToken] calls for the
    position manager, the [mint] static call, then the mint through
    [Web3Manager.sendTransaction], with no nonce retry; the whole body is in
    [try ... catch] returning [null] ([None]), and a failed static call
    returns [null] as well.  The token id read from the receipt's events is
    the receipt here. *)
Definition createPosition : M (option Z) :=
  catch
    (external ;;;                 (* fee(), tickSpacing() *)
     approveToken ;;;             (* token0 *)
     approveToken ;;;             (* token1 *)
     external ;;;                 (* pm.mint.staticCall *)
     r <- sendTransaction ;;
     ret (Some r))
    (fun _ => ret None).

(** One swap of the [swapping] stage of [rebalance]: the stage is written,
    the swap runs, and a [null] result aborts before mint. *)
Definition swapStage (swap : Z -> M (option Z)) (amountIn : Z) : M Z :=
  setStage Swapping ;;;
  r <- swap amountIn ;;
  match r with
  | Some receipt => ret receipt
  | None => throw OtherError
  end.

End Swap.

(* ================================================================= *)
(** ** Single-flight: runCheckCycle (index.js) and pendingRebalance *)

Module Orchestrator.

Record Descriptor := mkDescriptor { d_tokenId : Z; d_stage : Swap.Stage }.

(** [checkInterval] is the handle of the armed [setTimeout] ([None]:
    [null]); [nextTimer] is the handle the next [setTimeout] returns. *)
Record Bot := mkBot {
  isRunning : bool;
  isCheckInProgress : bool;
  pendingRebalance : option Descriptor;
  checkInterval : option nat;
  nextTimer : nat
}.

Inductive CycleOutcome := NotRunning | Skipped | Started.

(** [scheduleNextCheck()]: nothing when not running; otherwise
    [clearTimeout] of the armed timer and a fresh [setTimeout] whose handle
    replaces it. *)
Definition scheduleNextCheck (b : Bot) : Bot :=
  if negb (isRunning b) then b
  else mkBot (isRunning b) (isCheckInProgress b) (pendingRebalance b)
         (Some (nextTimer b)) (S (nextTimer b)).

(** The synchronous entry of [runCheckCycle] (up to its first await): the
    overlapping trigger logs, calls [scheduleNextCheck()] and returns. *)
Definition runCheckCycle_enter (b : Bot) : CycleOutcome * Bot :=
  if negb (isRunning b) then (NotRunning, b)
  else if isCheckInProgress b then (Skipped, scheduleNextCheck b)
  else (Started, mkBot (isRunning b) true (pendingRebalance b)
                   (checkInterval b) (nextTimer b)).

(** The [finally] block of [runCheckCycle]. *)
Definition runCheckCycle_exit (b : Bot) : Bot :=
  scheduleNextCheck
    (mkBot (isRunning b) false (pendingRebalance b) (checkInterval b)
       (nextTimer b)).

(** [rebalance] opens with [this.pendingRebalance = { ..., stage:
    'starting' }]. *)
Definition rebalance_start (tokenId : Z) (b : Bot) : Bot :=
  mkBot (isRunning b) (isCheckInProgress b)
    (Some (mkDescriptor tokenId Swap.Starting)) (checkInterval b) (nextTimer b).

(** End of [rebalance]: on success [pendingRebalance = null]; an error
    thrown during stage [s] is rethrown with the descriptor left at [s]. *)
Definition rebalance_finish (failedAt : option Swap.Stage) (b : Bot) : Bot :=
  match failedAt, pendingRebalance b with
  | None, _ =>
    mkBot (isRunning b) (isCheckInProgress b) None (checkInterval b)
      (nextTimer b)
  | Some s, Some d =>
    mkBot (isRunning b) (isCheckInProgress b)
      (Some (mkDescriptor (d_tokenId d) s)) (checkInterval b) (nextTimer b)
  | Some _, None => b
  end.

Definition rebalance (tokenId : Z) (failedAt : option Swap.Stage) (b : Bot)
    : Bot :=
  rebalance_finish failedAt (rebalance_start tokenId b).

(** The candidate loop of [checkAndRebalance]: each rebalance is awaited
    inside [try ... catch], so a failure moves on to the next candidate. *)
Fixpoint checkAndRebalance (candidates : list (Z * option Swap.Stage))
    (b : Bot) : Bot :=
  match candidates with
  | [] => b
  | (t, o) :: rest => checkAndRebalance rest (rebalance t o b)
  end.

Definition runCheckCycle (candidates : list (Z * option Swap.Stage))
    (b : Bot) : CycleOutcome * Bot :=
  match runCheckCycle_enter b with
  | (Started, b1) => (Started, runCheckCycle_exit (checkAndRebalance candidates b1))
  | (o, b1) => (o, b1)
  end.

(** States a started cycle passes through at its suspension points: its
    own rebalances start and finish, and overlapping triggers that were
    skipped re-arm the timer. *)
Inductive in_cycle : Bot -> Bot -> Prop :=
| in_cycle_refl b : in_cycle b b
| in_cycle_start b b' t : in_cycle b b' -> in_cycle b (rebalance_start t b')
| in_cycle_finish b b' o : in_cycle b b' -> in_cycle b (rebalance_finish o b')
| in_cycle_skip b b' : in_cycle b b' -> in_cycle b (scheduleNextCheck b').

End Orchestrator.

(* ================================================================= *)
(** ** Configuration defaults (config.js) *)

Module Config.

(** [parseInt(process.env.X) || d]: [None] is a [NaN] parse (variable unset
    or not numeric); a parsed [0] is falsy as well and falls back to [d]. *)
Definition orDefaultZ (parsed : option Z) (d : Z) : Z :=
  match parsed with
  | Some v => if (v =? 0)%Z then d else v
  | None => d
  end.

(** [parseFloat(process.env.X) || d], with the same fallbacks. *)
Definition orDefaultQ (parsed : option Q) (d : Q) : Q :=
  match parsed with
  | Some v => if Qeq_bool v 0 then d else v
  | None => d
  end.

Definition slippageBps (env : option Z) : Z := orDefaultZ env 300.
Definition rebalanceThreshold (env : option Q) : Q := orDefaultQ env 20.
(** [parseFloat(process.env.RANGE_MULTIPLIER) || 2.6] on binary64: the
    parse is [NaN] when the variable is unset or not numeric; [NaN], [0] and
    [-0] are falsy and fall back to the default, every other value
    (infinities included) is kept. *)
Definition orDefaultF (parsed d : float) : float :=
  if PrimFloat.is_nan parsed || PrimFloat.eqb parsed 0%float then d
  else parsed.

Definition rangeMultiplier (env : float) : float :=
  orDefaultF env Monitor.RANGE_MULTIPLIER.

End Config.

(* ================================================================= *)
(** ** BigInt amounts: slippage minimums and the gas limit *)

Module Amounts.

Local Open Scope Z_scope.

(** [(x * BigInt(10000 - config.slippageBps)) / 10000n]: the
    [amountOutMinimum] of [swapTokens] and the [amount0Min] / [amount1Min]
    of [createPosition].  BigInt division truncates toward zero. *)
Definition minAmount (x slippageBps : Z) : Z :=
  Z.quot (x * (10000 - slippageBps)) 10000.

(** [gasLimit = (estimatedGas * 120n) / 100n] of
    [Web3Manager.sendTransaction]. *)
Definition gasLimit (estimatedGas : Z) : Z :=
  Z.quot (estimatedGas * 120) 100.

End Amounts.

(* ================================================================= *)
(** ** PositionMonitor.findPool (monitor.js) *)

Module Pool.

Local Open Scope Z_scope.

Definition feeTiers : list Z := [10; 20; 35; 40; 100; 500; 3000; 10000].

(** [config.aerodrome.factory] followed by the two hard-coded factories. *)
Definition factories (configFactory : Z) : list Z :=
  [configFactory;
   0x420DD381b31aEf6683db6B902084cB0FFECe40Da;
   0xaDe65c38CD4849aDBA595a4323a8C7DdfE89716a].

(** The inner [for (const fee of feeTiers)] loop for one factory.
    [getPool fee] is [factory.getPool(token0, token1, fee)]; [None] is a
    call that throws, which the inner [catch] skips; the zero address is
    [0]. *)
Fixpoint tryFees (getPool : Z -> option Z) (fees : list Z) : option Z :=
  match fees with
  | [] => None
  | fee :: rest =>
    match getPool fee with
    | Some a => if (a =? 0)%Z then tryFees getPool rest else Some a
    | None => tryFees getPool rest
    end
  end.

(** The outer [for (const factoryAddress of factories)] loop. *)
Fixpoint tryFactories (getPool : Z -> Z -> option Z) (fs : list Z)
    : option Z :=
  match fs with
  | [] => None
  | f :: rest =>
    match tryFees (getPool f) feeTiers with
    | Some a => Some a
    | None => tryFactories getPool rest
    end
  end.

(** [findPool(token0, token1)] for a fixed token pair; [None] is [null]. *)
Definition findPool (configFactory : Z) (getPool : Z -> Z -> option Z)
    : option Z :=
  tryFactories getPool (factories configFactory).

(** The (factory, fee) pairs in the order the two loops visit them. *)
Definition probeOrder (fs : list Z) : list (Z * Z) :=
  flat_map (fun f => map (fun fee => (f, fee)) feeTiers) fs.

End Pool.

(* ================================================================= *)
(** ** Candidate selection: checkAndRebalance (index.js) and
       getOutOfRangePositions (monitor.js) *)

Module Select.

(** An element of the array [checkAllPositions] returns: the position's
    fields and the spread status object. *)
Record Entry := mkEntry {
  e_tokenId : Z;
  e_isStaked : bool;
  e_gaugeAddress : option Z;
  e_status : Status.PositionStatus
}.

(** [{ ..., isStaked: position.isStaked || false, gaugeAddress:
    position.gaugeAddress || null, ...status }] *)
Definition entry (p : Status.Position) (currentTick : Z) : Entry :=
  mkEntry (Status.tokenId p) (Status.isStaked p) (Status.gaugeAddress p)
    (Status.checkPositionStatus p currentTick).

(** [Number(x.toFixed(2))] for an exact rational [x]: the integer [n]
    nearest to [100 * x], the larger one on a tie, for [x >= 0]; a negative
    [x] is formatted as [-(-x).toFixed(2)]. *)
Definition toFixed2 (x : Q) : Q :=
  let round (y : Q) : Z := Qfloor (y * 100 + (1 # 2)) in
  if Qle_bool 0 x then round x # 100 else Z.opp (round (- x)) # 100.

(** The number the string [p.percentOutOfRange] reads back as
    ([Number(s || 0)] and [parseFloat(s)] agree on a [toFixed] string). *)
Definition percent (p : Entry) : Q :=
  toFixed2 (Status.percentOutOfRange (e_status p)).

Definition isInRange (p : Entry) : bool := Status.isInRange (e_status p).

(** [positions.filter(p => !p.isInRange)] *)
Definition outOfRangePositions (ps : list Entry) : list Entry :=
  filter (fun p => negb (isInRange p)) ps.

(** [outOfRangePositions.filter(p => Number(p.percentOutOfRange || 0) >=
    threshold)] *)
Definition rebalanceCandidates (threshold : Q) (ps : list Entry)
    : list Entry :=
  filter (fun p => Qle_bool threshold (percent p)) (outOfRangePositions ps).

(** [positions.filter(p => p.isInRange && !p.isStaked && p.gaugeAddress)] *)
Definition unstakedInRangePositions (ps : list Entry) : list Entry :=
  filter (fun p => isInRange p && negb (e_isStaked p)
                   && match e_gaugeAddress p with Some _ => true | None => false end)
    ps.

(** [getOutOfRangePositions] of monitor.js, after [checkAllPositions]:
    [allPositions.filter(p => !p.isInRange &&
       parseFloat(p.percentOutOfRange) >= thresholdPercent)]. *)
Definition getOutOfRangePositions (thresholdPercent : Q) (ps : list Entry)
    : list Entry :=
  filter (fun p => negb (isInRange p) && Qle_bool thresholdPercent (percent p))
    ps.

End Select.

(* ================================================================= *)
(** ** Wallet bootstrap range: checkAndCreatePositionFromWallet (index.js) *)

Module Bootstrap.

(** The range of the position created from wallet balances: the same half
    width as [calculateNewRange], but [Math.floor] for both bounds. *)
Definition walletRange (currentTick tickSpacing rangeMultiplier : float)
    : Monitor.TickRange :=
  let rangeWidth := Monitor.rangeWidth tickSpacing rangeMultiplier in
  Monitor.mkTickRange
    (JsMath.Math_floor ((currentTick - rangeWidth) / tickSpacing) * tickSpacing)%float
    (JsMath.Math_floor ((currentTick + rangeWidth) / tickSpacing) * tickSpacing)%float.

End Bootstrap.

(* ================================================================= *)
(** ** Allowance top-ups: approveToken (web3.js) and the Permit2 step of
       swapTokens (rebalancer.js) *)

Module Approve.

Local Open Scope Z_scope.

Definition MaxUint256 : Z := 2 ^ 256 - 1.
Definition maxUint160 : Z := 2 ^ 160 - 1.

(** One (owner, token, spender) allowance and the approval transactions
    sent for it. *)
Record Allowance := mkAllowance { allowance : Z; approvals : nat }.

(** [if (currentAllowance < amount) approve(spender, max)]: [approveToken]
    with [max = MaxUint256], the Permit2 step with [max = maxUint160]. *)
Definition approveIfBelow (max amount : Z) (a : Allowance) : Allowance :=
  if (allowance a <? amount)%Z then mkAllowance max (S (approvals a)) else a.

Definition approveToken (amount : Z) (a : Allowance) : Allowance :=
  approveIfBelow MaxUint256 amount a.

(** A sequence of calls for the given amounts, with no spending between
    them. *)
Definition approveAll (max : Z) (amounts : list Z) (a : Allowance)
    : Allowance :=
  fold_left (fun acc amount => approveIfBelow max amount acc) amounts a.

End Approve.

(* ================================================================= *)
(** ** Pool cache: getPool and getCurrentPrice (web3.js) *)

Module Cache.

Local Open Scope Z_scope.

Record PoolInfo := mkPoolInfo {
  pi_token0 : Z;
  pi_token1 : Z;
  pi_tickSpacing : Z;
  pi_fee : Z;
  currentTick : Z
}.

(** [this.pools], a [Map] from pool address to the cached object. *)
Definition Pools := list (Z * PoolInfo).

Fixpoint lookup (c : Pools) (a : Z) : option PoolInfo :=
  match c with
  | [] => None
  | (k, v) :: rest => if (k =? a)%Z then Some v else lookup rest a
  end.

(** Writing a field of the cached object: every later [get] of the key
    sees the new value. *)
Fixpoint update (c : Pools) (a : Z) (f : PoolInfo -> PoolInfo) : Pools :=
  match c with
  | [] => []
  | (k, v) :: rest =>
    if (k =? a)%Z then (k, f v) :: rest else (k, v) :: update rest a f
  end.

(** [getPool(poolAddress)]: [chain a] is what the five reads of the pool
    contract return now ([None]: one of them throws, and nothing is
    cached). *)
Definition getPool (chain : Z -> option PoolInfo) (a : Z) (c : Pools)
    : option PoolInfo * Pools :=
  match lookup c a with
  | Some p => (Some p, c)
  | None =>
    match chain a with
    | Some p => (Some p, (a, p) :: c)
    | None => (None, c)
    end
  end.

(** [getCurrentPrice(poolAddress)]: [getPool], then [slot0()], whose tick
    is written into the cached object ([pool.currentTick = slot0.tick]). *)
Definition getCurrentPrice (chain : Z -> option PoolInfo)
    (slot0Tick : Z -> option Z) (a : Z) (c : Pools) : option Z * Pools :=
  match getPool chain a c with
  | (Some _, c1) =>
    match slot0Tick a with
    | Some t =>
      (Some t, update c1 a (fun p => mkPoolInfo (pi_token0 p) (pi_token1 p)
                                        (pi_tickSpacing p) (pi_fee p) t))
    | None => (None, c1)
    end
  | (None, c1) => (None, c1)
  end.

End Cache.

(* ================================================================= *)
(** ** Rebalancer.rebalance: stages, swap plan, failures (rebalancer.js) *)

Module Rebalance.

Local Open Scope Z_scope.

Import Swap.

Inductive Direction := ZeroForOne | OneForZero.

(** Step 5 of [rebalance]: an out-of-range target swaps the whole balance
    of the other token, when it is non-zero; [inRangePlan] is the decision
    of the in-range branch (float price math). *)
Definition swapPlan (ratio : Ratio.RatioResult) (amount0 amount1 : Z)
    (inRangePlan : option (Direction * Z)) : option (Direction * Z) :=
  if negb (Ratio.inRange ratio) then
    if Ratio.belowRange ratio then
      if (0 <? amount1)%Z then Some (OneForZero, amount1) else None
    else
      if (0 <? amount0)%Z then Some (ZeroForOne, amount0) else None
  else inRangePlan.

(** [rebalance(positionInfo, newRange)] as a program of the swap monad.
    The stage writes of [pendingRebalance.stage] go to [stageLog]; the
    calls of other methods are parameters: [unstake] is
    [unstakeFromGauge], [plan] the balance/ratio reads and the swap
    decision of step 5, [swap] is [swapTokens], [createPosition] returns
    [null] as [None], [stake] is [stakeToGauge].  The outer [catch] only
    logs and rethrows. *)
Definition rebalance (isStaked : bool) (gaugeAddress : option Z)
    (unstake : M unit) (plan : M (option (Direction * Z)))
    (swap : Z -> M (option Z)) (createPosition : M (option Z))
    (stake : Z -> M unit) : M Z :=
  setStage Starting ;;;
  (if isStaked && match gaugeAddress with Some _ => true | None => false end then
     setStage Unstaking ;;; catch unstake (fun _ => ret tt)
   else ret tt) ;;;
  setStage Withdrawing ;;; external ;;;       (* multicall: decrease, collect, burn *)
  setStage CheckingBalances ;;; external ;;;  (* balances, decimals, symbols *)
  setStage CalculatingRatio ;;; external ;;;  (* calculateOptimalRatio *)
  setStage Swapping ;;;
  p <- plan ;;
  (match p with
   | None => ret tt
   | Some (_, amount) =>
     r <- swap amount ;;
     match r with
     | Some _ => external                     (* new balances *)
     | None => throw OtherError               (* aborting rebalance before mint *)
     end
   end) ;;;
  setStage CreatingPosition ;;;
  t <- createPosition ;;
  match t with
  | None => throw OtherError                  (* 'Failed to create new position' *)
  | Some newTokenId =>
    (match gaugeAddress with
     | Some _ => setStage StakingStage ;;; catch (stake newTokenId) (fun _ => ret tt)
     | None => ret tt
     end) ;;;
    ret newTokenId
  end.

(** Position of a stage in the pipeline. *)
Definition stageRank (s : Stage) : nat :=
  match s with
  | Starting => 0 | Unstaking => 1 | Withdrawing => 2 | CheckingBalances => 3
  | CalculatingRatio => 4 | Swapping => 5 | CreatingPosition => 6
  | StakingStage => 7
  end.

(** [k] consecutive [Web3Manager.sendTransaction] calls; the receipts
    (nonces) in call order. *)
Fixpoint sendMany (k : nat) : M (list Z) :=
  match k with
  | O => ret []
  | S k' => n <- sendTransaction ;; ns <- sendMany k' ;; ret (n :: ns)
  end.

End Rebalance.

(* ================================================================= *)
(** ** Kyber router allowlist (config.js, validateKyberRouter) *)

Module Kyber.

Import Ascii.
Local Open Scope char_scope.

(** Whitespace removed by [String.prototype.trim] (on ASCII text). *)
Definition isSpace (c : ascii) : bool :=
  match N_of_ascii c with
  | 9 | 10 | 11 | 12 | 13 | 32 => true
  | _ => false
  end%N.

(** [String.prototype.toLowerCase] on ASCII text. *)
Definition toLowerAscii (c : ascii) : ascii :=
  let n := N_of_ascii c in
  if (65 <=? n)%N && (n <=? 90)%N then ascii_of_N (n + 32) else c.

Definition toLowerCase (s : list ascii) : list ascii := map toLowerAscii s.

(** [s.split(',')]: the pieces between commas, empty ones included. *)
Fixpoint split (s : list ascii) : list (list ascii) :=
  match s with
  | [] => [[]]
  | c :: r =>
    if ascii_dec c "," then [] :: split r
    else match split r with
         | [] => [[c]]
         | x :: xs => (c :: x) :: xs
         end
  end.

Fixpoint trimStart (s : list ascii) : list ascii :=
  match s with
  | c :: r => if isSpace c then trimStart r else s
  | [] => []
  end.

Definition trim (s : list ascii) : list ascii := rev (trimStart (rev (trimStart s))).

Definition nonEmpty (s : list ascii) : bool :=
  match s with [] => false | _ => true end.

(** [config.kyber.allowedRouters]:
    [(process.env.KYBER_ALLOWED_ROUTERS || '').split(',').map(v => v.trim())
     .filter(Boolean)]. *)
Definition allowedRouters (env : option (list ascii)) : list (list ascii) :=
  let s := match env with Some s => s | None => [] end in
  filter nonEmpty (map trim (split s)).

Definition eqb (a b : list ascii) : bool :=
  if list_eq_dec ascii_dec a b then true else false.

(** [validateKyberRouter]: [true] when it returns, [false] when it throws
    'Kyber returned non-allowlisted router'. *)
Definition validateKyberRouter (allowed : list (list ascii)) (routerAddress : list ascii)
    : bool :=
  match allowed with
  | [] => true
  | _ => existsb (fun a => eqb (toLowerCase a) (toLowerCase routerAddress)) allowed
  end.

End Kyber.

(* ================================================================= *)
(** * Properties *)

Open Scope Z_scope.

(* ----------------------------------------------------------------- *)
(** ** calculateNewRange *)

(** C1 (code defect).  [calculateNewRange] neither clamps its result to
    [MIN_TICK, MAX_TICK] nor fails when the range collapses: near the top of
    the tick space [calculateNewRange(887270, 10, 2.6)] returns
    [(887190, 887350)] with [887350 > MAX_TICK]; in scenario A
    [calculateNewRange(-196320, 60, 2.6)] returns the zero-width range
    [(-196320, -196320)] instead of raising InvalidRange; and a positive
    half width below the float resolution of the tick is absorbed, so
    [calculateNewRange(60, 1, 1e-20)] also returns a zero-width range. *)
Theorem calculateNewRange_exceeds_MAX_TICK :
  let r := Monitor.calculateNewRange 887270 10 Monitor.RANGE_MULTIPLIER in
  Monitor.tickLower r = 887190%float /\ Monitor.tickUpper r = 887350%float /\
  PrimFloat.ltb (JsMath.Z_to_float MAX_TICK) (Monitor.tickUpper r) = true /\
  Monitor.calculateNewRange (-196320) 60 Monitor.RANGE_MULTIPLIER
    = Monitor.mkTickRange (-196320) (-196320) /\
  PrimFloat.ltb 0 (Monitor.rangeWidth 1 1e-20) = true /\
  Monitor.calculateNewRange 60 1 1e-20 = Monitor.mkTickRange 60 60.
Proof. vm_compute. repeat split; reflexivity. Qed.

(** C2 (code defect).  Scenario A: [calculateNewRange(-196320, 60, 2.6)]
    computes the half width [60 * Math.floor(30 / 60) * 2.6 = 0] and returns
    the empty range [(-196320, -196320)], not [(-196440, -196200)]. *)
Theorem calculateNewRange_scenarioA :
  Monitor.calculateNewRange (-196320) 60 Monitor.RANGE_MULTIPLIER
    = Monitor.mkTickRange (-196320) (-196320) /\
  Monitor.rangeWidth 60 Monitor.RANGE_MULTIPLIER = 0%float.
Proof. split; vm_compute; reflexivity. Qed.

(* ----------------------------------------------------------------- *)
(** ** calculateOptimalRatio *)

(** C3 counterexample: with [currentTick = tickUpper = 0] and
    [tickLower = -60] the in-range branch runs with
    [sqrtPriceCurrent = sqrtPriceUpper = 1] (ECMAScript fixes
    [Math.pow(x, 0) = 1] and [Math.sqrt(1) = 1]), so the raw ratio is [0] and
    the pair [(0, 1)] is returned although [currentTick > tickUpper] fails. *)
Lemma calculateOptimalRatio_pair01_at_tickUpper :
  ~ (forall currentTick tickLower tickUpper decimals0 decimals1 : Z,
       Ratio.is_pair
         (Ratio.calculateOptimalRatio currentTick tickLower tickUpper
            decimals0 decimals1) 0 1 = true
       <-> (tickUpper < currentTick)%Z).
Proof.
  intros H. destruct (H 0%Z (-60)%Z 0%Z 9%Z 6%Z) as [H1 _].
  assert (E : Ratio.is_pair (Ratio.calculateOptimalRatio 0 (-60) 0 9 6) 0 1
              = true) by (vm_compute; reflexivity).
  specialize (H1 E). lia.
Qed.

(** C3 (corrected).  [calculateOptimalRatio] returns [(1, 0)] with
    [belowRange] when [currentTick < tickLower], and [(0, 1)] with
    [inRange = false] when [tickLower <= currentTick] and
    [currentTick > tickUpper]; [belowRange] holds exactly when
    [currentTick < tickLower] and [inRange] exactly when
    [tickLower <= currentTick <= tickUpper].  The in-range branch also
    yields [(0, 1)] at [currentTick = tickUpper = 0], [tickLower = -60]. *)
Theorem calculateOptimalRatio_boundaries :
  (forall currentTick tickLower tickUpper decimals0 decimals1 : Z,
    let r := Ratio.calculateOptimalRatio currentTick tickLower tickUpper
               decimals0 decimals1 in
    ((currentTick < tickLower)%Z ->
       Ratio.is_pair r 1 0 = true /\ Ratio.belowRange r = true /\
       Ratio.inRange r = false) /\
    ((tickLower <= currentTick)%Z -> (tickUpper < currentTick)%Z ->
       Ratio.is_pair r 0 1 = true /\ Ratio.inRange r = false /\
       Ratio.belowRange r = false) /\
    (Ratio.belowRange r = true <-> (currentTick < tickLower)%Z) /\
    (Ratio.inRange r = true <->
       (tickLower <= currentTick <= tickUpper)%Z)) /\
  (Ratio.is_pair (Ratio.calculateOptimalRatio 0 (-60) 0 9 6) 0 1 = true /\
   Ratio.inRange (Ratio.calculateOptimalRatio 0 (-60) 0 9 6) = true).
Proof.
  split; [|split; vm_compute; reflexivity].
  intros cur lo up d0 d1. cbv zeta. unfold Ratio.calculateOptimalRatio.
  destruct (Z.ltb_spec cur lo) as [Hlo|Hlo];
    [|destruct (Z.ltb_spec up cur) as [Hup|Hup]]; simpl;
    repeat split; try reflexivity; try lia; try discriminate;
    intros; try lia; try discriminate.
Qed.

(* ----------------------------------------------------------------- *)
(** ** checkPositionStatus and checkAllPositions *)

Definition scenarioA_position : Status.Position :=
  Status.mkPosition 1 0 0 (-196560) (-196440) (10 ^ 18) None false None.

(** C4 (code defect).  [checkPositionStatus] classifies the closed
    interval: [isInRange] holds exactly when
    [tickLower <= currentTick <= tickUpper], because [isAboveRange] is
    [currentTick > tickUpper].  Outside, [percentOutOfRange] is the distance
    to the crossed bound over the width, times 100.  At
    [currentTick = tickUpper] (position [-196560 .. -196440], tick
    [-196440]) the position is reported in range with 0% out. *)
Theorem checkPositionStatus_closed_interval :
  (forall (p : Status.Position) (currentTick : Z),
    let s := Status.checkPositionStatus p currentTick in
    let lo := Status.pos_tickLower p in
    let up := Status.pos_tickUpper p in
    (Status.isInRange s = true <-> (lo <= currentTick <= up)%Z) /\
    ((currentTick < lo)%Z ->
       (Status.percentOutOfRange s
          == inject_Z (lo - currentTick) / inject_Z (up - lo) * 100)%Q) /\
    ((lo <= currentTick)%Z -> (up < currentTick)%Z ->
       (Status.percentOutOfRange s
          == inject_Z (currentTick - up) / inject_Z (up - lo) * 100)%Q)) /\
  (let s := Status.checkPositionStatus scenarioA_position (-196440) in
   Status.isInRange s = true /\ Status.isAboveRange s = false /\
   (Status.percentOutOfRange s == 0)%Q).
Proof.
  split; [|vm_compute; repeat split; reflexivity].
  intros p cur. cbv zeta. unfold Status.checkPositionStatus; simpl.
  destruct (Z.ltb_spec cur (Status.pos_tickLower p)) as [Hlo|Hlo];
    [|destruct (Z.ltb_spec (Status.pos_tickUpper p) cur) as [Hup|Hup]];
    simpl; repeat split; intros; try reflexivity; try lia; try discriminate.
Qed.

Lemma checkOne_in_checkAllPositions (ps : list Status.Position)
    (reads : Status.Position -> Status.Reads) (p : Status.Position)
    (c : Status.CheckedPosition) :
  In p ps -> Status.checkOne p (reads p) = Some c ->
  In c (Status.checkAllPositions ps reads).
Proof.
  induction ps as [|q ps IH]; simpl; [tauto|].
  intros [->|Hin] Hc.
  - rewrite Hc. left. reflexivity.
  - destruct (Status.checkOne q (reads q)); [right|]; auto.
Qed.

(** C9.  When the pool of a position is known and [getPool] succeeds but
    the [slot0] read throws (the fallback [tick()] read always throws too),
    [checkAllPositions] still reports the position, classified by
    [checkPositionStatus] at [currentTick = 0]. *)
Theorem checkAllPositions_tick_read_failure
    (ps : list Status.Position) (reads : Status.Position -> Status.Reads)
    (p : Status.Position)
    (Hin : In p ps)
    (Hpool : Status.poolAddress p <> None \/
             Status.rd_findPool (reads p) <> None)
    (HgetPool : Status.rd_getPool (reads p) <> None)
    (Hslot0 : Status.rd_slot0Tick (reads p) = None)
    (Htok0 : Status.rd_token0Symbol (reads p) <> None)
    (Htok1 : Status.rd_token1Symbol (reads p) <> None) :
  exists c, In c (Status.checkAllPositions ps reads) /\
            Status.cp_tokenId c = Status.tokenId p /\
            Status.cp_status c = Status.checkPositionStatus p 0.
Proof.
  assert (exists c, Status.checkOne p (reads p) = Some c /\
                    Status.cp_tokenId c = Status.tokenId p /\
                    Status.cp_status c = Status.checkPositionStatus p 0)
    as (c & Hc & Hid & Hst).
  { unfold Status.checkOne. rewrite Hslot0.
    destruct (Status.rd_getPool (reads p)) as [g|]; [|congruence].
    destruct (Status.rd_token0Symbol (reads p)) as [a|]; [|congruence].
    destruct (Status.rd_token1Symbol (reads p)) as [b|]; [|congruence].
    destruct (Status.poolAddress p) as [a0|].
    - eexists; repeat split; reflexivity.
    - destruct (Status.rd_findPool (reads p)) as [a0|];
        [|destruct Hpool as [H|H]; congruence].
      eexists; repeat split; reflexivity. }
  exists c. split; [|split; assumption].
  apply checkOne_in_checkAllPositions with p; assumption.
Qed.

Definition tick_failure_reads : Status.Reads :=
  Status.mkReads None (Some 100) None (Some 1) (Some 2).

Lemma checkAllPositions_tick_read_failure_witness :
  exists c,
    In c (Status.checkAllPositions
            [Status.mkPosition 7 10 20 (-120) 60 1000 (Some 5) true (Some 9)]
            (fun _ => tick_failure_reads)) /\
    Status.cp_tokenId c = 7%Z /\
    Status.cp_status c
      = Status.checkPositionStatus
          (Status.mkPosition 7 10 20 (-120) 60 1000 (Some 5) true (Some 9)) 0.
Proof.
  apply (checkAllPositions_tick_read_failure
           [Status.mkPosition 7 10 20 (-120) 60 1000 (Some 5) true (Some 9)]
           (fun _ => tick_failure_reads)
           (Status.mkPosition 7 10 20 (-120) 60 1000 (Some 5) true (Some 9))).
  - left; reflexivity.
  - left; discriminate.
  - simpl; discriminate.
  - reflexivity.
  - simpl; discriminate.
  - simpl; discriminate.
Defined.

(* ----------------------------------------------------------------- *)
(** ** getGasPrice *)

(** C8.  On the EIP-1559 path, for every base fee, priority fee and cap,
    [maxPriorityFeePerGas <= maxFeePerGas]; [maxFeePerGas] is
    [min(baseFee + priorityFee, maxGwei)], and when it falls below the
    configured priority fee the priority fee is clamped to it (otherwise it
    is the configured one). *)
Theorem getGasPrice_priority_le_max (feeData baseFee priorityFee maxGwei : Z) :
  match Gas.getGasPrice Gas.Auto feeData baseFee priorityFee maxGwei with
  | Gas.Eip1559 maxFee maxPrio =>
    (maxPrio <= maxFee)%Z /\
    maxFee = Z.min (baseFee + priorityFee) maxGwei /\
    ((maxFee < priorityFee)%Z -> maxPrio = maxFee) /\
    ((priorityFee <= maxFee)%Z -> maxPrio = priorityFee)
  | Gas.LegacyFees _ => False
  end.
Proof.
  unfold Gas.getGasPrice.
  destruct (Z.ltb_spec maxGwei (baseFee + priorityFee)) as [H1|H1];
  [destruct (Z.ltb_spec maxGwei priorityFee) as [H2|H2]
  |destruct (Z.ltb_spec (baseFee + priorityFee) priorityFee) as [H2|H2]];
  repeat split; intros; lia.
Qed.

(* ----------------------------------------------------------------- *)
(** ** Single-flight *)

Section SingleFlight.

Import Orchestrator.

Lemma in_cycle_latch (b b' : Bot) :
  in_cycle b b' ->
  isRunning b' = isRunning b /\ isCheckInProgress b' = isCheckInProgress b.
Proof.
  induction 1 as [b|b b' t _ IH|b b' o _ IH|b b' _ IH]; [split; reflexivity| | |].
  - simpl. exact IH.
  - unfold rebalance_finish.
    destruct o, (pendingRebalance b'); simpl; exact IH.
  - unfold scheduleNextCheck. destruct (isRunning b') eqn:E; simpl; rewrite ?E; exact IH.
Qed.

End SingleFlight.

(** C5 counterexample: a rebalance that fails in the swapping stage leaves
    its descriptor in [pendingRebalance]; the next cycle is not skipped and
    its rebalance replaces that descriptor with a fresh one. *)
Lemma pendingRebalance_replaced_after_failure :
  let b0 := Orchestrator.mkBot true false None None 0 in
  let b1 := snd (Orchestrator.runCheckCycle [(1, Some Swap.Swapping)] b0) in
  let b2 := snd (Orchestrator.runCheckCycle_enter b1) in
  Orchestrator.pendingRebalance b1
    = Some (Orchestrator.mkDescriptor 1 Swap.Swapping) /\
  fst (Orchestrator.runCheckCycle_enter b1) = Orchestrator.Started /\
  Orchestrator.pendingRebalance (Orchestrator.rebalance_start 2 b2)
    = Some (Orchestrator.mkDescriptor 2 Swap.Starting).
Proof. repeat split. Qed.

(** C5 (corrected).  Overlapping cycles are excluded by the
    [isCheckInProgress] latch: a [runCheckCycle] trigger that fires at any
    suspension point of a started cycle (between or inside its rebalances,
    also after other skipped triggers) is skipped; it starts no check and
    leaves the running flag, the latch and [pendingRebalance] as they are,
    and its only effect is [scheduleNextCheck()], which replaces the armed
    timer by a fresh one.  The rebalancer has a single [pendingRebalance]
    slot, which every [rebalance] call overwrites with a fresh descriptor
    whatever it held; a successful rebalance clears it and a failed one
    leaves it at the failing stage. *)
Theorem runCheckCycle_single_flight :
  (forall b b1 b2 : Orchestrator.Bot,
     Orchestrator.runCheckCycle_enter b = (Orchestrator.Started, b1) ->
     Orchestrator.in_cycle b1 b2 ->
     Orchestrator.runCheckCycle_enter b2 =
       (Orchestrator.Skipped,
        Orchestrator.mkBot (Orchestrator.isRunning b2)
          (Orchestrator.isCheckInProgress b2) (Orchestrator.pendingRebalance b2)
          (Some (Orchestrator.nextTimer b2)) (S (Orchestrator.nextTimer b2)))) /\
  (forall (t : Z) (b : Orchestrator.Bot),
     Orchestrator.pendingRebalance (Orchestrator.rebalance_start t b)
       = Some (Orchestrator.mkDescriptor t Swap.Starting)) /\
  (forall (t : Z) (b : Orchestrator.Bot),
     Orchestrator.pendingRebalance (Orchestrator.rebalance t None b) = None) /\
  (forall (t : Z) (s : Swap.Stage) (b : Orchestrator.Bot),
     Orchestrator.pendingRebalance (Orchestrator.rebalance t (Some s) b)
       = Some (Orchestrator.mkDescriptor t s)).
Proof.
  split; [|repeat split].
  intros b b1 b2 Henter Hcyc.
  destruct (in_cycle_latch _ _ Hcyc) as [Hrun Hlatch].
  unfold Orchestrator.runCheckCycle_enter in *.
  destruct (Orchestrator.isRunning b) eqn:Er; simpl in Henter;
    [|discriminate].
  destruct (Orchestrator.isCheckInProgress b); [discriminate|].
  injection Henter as <-. simpl in Hrun, Hlatch.
  rewrite Hrun, Hlatch. simpl.
  unfold Orchestrator.scheduleNextCheck. rewrite Hrun, Hlatch. reflexivity.
Qed.

(* ----------------------------------------------------------------- *)
(** ** Swap retries and nonce-expired retry *)

Section Frame.

Import Swap.

(** [m] never changes the observation [f] of the world. *)
Definition keeps {T A} (f : World -> T) (m : M A) : Prop :=
  forall w, f (snd (m w)) = f w.

Lemma keeps_ret {T A} (f : World -> T) (a : A) : keeps f (ret a).
Proof. intro w. reflexivity. Qed.

Lemma keeps_throw {T A} (f : World -> T) (e : ErrKind) : keeps f (@throw A e).
Proof. intro w. reflexivity. Qed.

Lemma keeps_get {T} (f : World -> T) : keeps f get.
Proof. intro w. reflexivity. Qed.

Lemma keeps_bind {T A B} (f : World -> T) (m : M A) (k : A -> M B) :
  keeps f m -> (forall a, keeps f (k a)) -> keeps f (bind m k).
Proof.
  intros Hm Hk w. unfold bind. specialize (Hm w).
  destruct (m w) as [[a|e] w']; simpl in *; [rewrite Hk|]; exact Hm.
Qed.

Lemma keeps_catch {T A} (f : World -> T) (m : M A) (h : ErrKind -> M A) :
  keeps f m -> (forall e, keeps f (h e)) -> keeps f (catch m h).
Proof.
  intros Hm Hh w. unfold catch. specialize (Hm w).
  destruct (m w) as [[a|e] w']; simpl in *; [|rewrite Hh]; exact Hm.
Qed.

Lemma keeps_if {T A} (f : World -> T) (c : bool) (m1 m2 : M A) :
  keeps f m1 -> keeps f m2 -> keeps f (if c then m1 else m2).
Proof. destruct c; auto. Qed.

Lemma keeps_external_quotes : keeps quotes external.
Proof. intro w. unfold external. destruct (oracle w) as [|[| |e] r]; reflexivity. Qed.

Lemma keeps_external_stage : keeps stageLog external.
Proof. intro w. unfold external. destruct (oracle w) as [|[| |e] r]; reflexivity. Qed.

Lemma keeps_external_resets : keeps resets external.
Proof. intro w. unfold external. destruct (oracle w) as [|[| |e] r]; reflexivity. Qed.

Lemma keeps_readAllowance_quotes : keeps quotes readAllowance.
Proof. intro w. unfold readAllowance. destruct (oracle w) as [|[| |e] r]; reflexivity. Qed.

Lemma keeps_readAllowance_stage : keeps stageLog readAllowance.
Proof. intro w. unfold readAllowance. destruct (oracle w) as [|[| |e] r]; reflexivity. Qed.

Lemma keeps_readAllowance_resets : keeps resets readAllowance.
Proof. intro w. unfold readAllowance. destruct (oracle w) as [|[| |e] r]; reflexivity. Qed.

Lemma keeps_modify {T} (f : World -> T) (g : World -> World) :
  (forall w, f (g w) = f w) -> keeps f (modify g).
Proof. intros H w. apply H. Qed.

End Frame.

Create HintDb frame.
#[export] Hint Resolve keeps_ret keeps_throw keeps_get keeps_bind keeps_catch
  keeps_if keeps_external_quotes keeps_external_stage keeps_external_resets
  keeps_readAllowance_quotes keeps_readAllowance_stage keeps_readAllowance_resets
  : frame.
#[export] Hint Extern 1 (keeps _ (Swap.modify _)) =>
  apply keeps_modify; intro; reflexivity : frame.
#[export] Hint Extern 1 (forall _, keeps _ _) => intro : frame.
#[export] Hint Extern 2 (keeps _ (match ?x with _ => _ end)) =>
  destruct x : frame.

Ltac frame :=
  repeat (unfold Swap.sendTransaction, Swap.nmSendTransaction, Swap.reset,
            Swap.setNM, Swap.logSent, Swap.confirm, Swap.countQuote,
            Swap.setStage, Swap.approveToken, Swap.permit2Approve);
  eauto 30 with frame.

Lemma submitWithNonceRetry_keeps_quotes : keeps Swap.quotes Swap.submitWithNonceRetry.
Proof. unfold Swap.submitWithNonceRetry. frame. Qed.

Lemma submitWithNonceRetry_keeps_stage : keeps Swap.stageLog Swap.submitWithNonceRetry.
Proof. unfold Swap.submitWithNonceRetry. frame. Qed.

#[export] Hint Resolve submitWithNonceRetry_keeps_stage : frame.

Lemma runSwapAttempt_keeps_stage : keeps Swap.stageLog Swap.runSwapAttempt.
Proof. unfold Swap.runSwapAttempt. frame. Qed.

#[export] Hint Resolve runSwapAttempt_keeps_stage : frame.

Lemma swapTokensKyber_keeps_stage (a : Z) : keeps Swap.stageLog (Swap.swapTokensKyber a).
Proof. unfold Swap.swapTokensKyber. frame. Qed.

Lemma swapTokensDirect_keeps_stage (a : Z) : keeps Swap.stageLog (Swap.swapTokensDirect a).
Proof. unfold Swap.swapTokensDirect. frame. Qed.

Lemma bind_modify_eq {A} (g : Swap.World -> Swap.World)
    (k : unit -> Swap.M A) (w : Swap.World) :
  Swap.bind (Swap.modify g) k w = k tt (g w).
Proof. reflexivity. Qed.

#[export] Hint Resolve submitWithNonceRetry_keeps_quotes : frame.

Lemma runSwapAttempt_one_quote (w : Swap.World) :
  Swap.quotes (snd (Swap.runSwapAttempt w)) = S (Swap.quotes w).
Proof.
  unfold Swap.runSwapAttempt, Swap.countQuote. rewrite bind_modify_eq.
  cbv beta.
  match goal with
  | |- Swap.quotes (snd (?m ?w')) = _ =>
    assert (H : keeps Swap.quotes m) by frame; rewrite (H w')
  end.
  reflexivity.
Qed.

Section Bounds.

Import Swap.

(** [m] increases the counter [f] of the world by at most [n]. *)
Definition adds {A} (f : World -> nat) (n : nat) (m : M A) : Prop :=
  forall w, (f (snd (m w)) <= f w + n)%nat.

Lemma adds_keeps {A} (f : World -> nat) (m : M A) : keeps f m -> adds f 0 m.
Proof. intros H w. rewrite H. lia. Qed.

Lemma adds_ret {A} (f : World -> nat) (a : A) : adds f 0 (ret a).
Proof. intro w. simpl. lia. Qed.

Lemma adds_throw {A} (f : World -> nat) (e : ErrKind) : adds f 0 (@throw A e).
Proof. intro w. simpl. lia. Qed.

Lemma adds_get (f : World -> nat) : adds f 0 get.
Proof. intro w. simpl. lia. Qed.

Lemma adds_bind {A B} (f : World -> nat) (a b : nat) (m : M A) (k : A -> M B) :
  adds f a m -> (forall x, adds f b (k x)) -> adds f (a + b) (bind m k).
Proof.
  intros Hm Hk w. unfold bind. specialize (Hm w).
  destruct (m w) as [[x|e] w']; simpl in *; [specialize (Hk x w')|]; lia.
Qed.

Lemma adds_catch {A} (f : World -> nat) (a b : nat) (m : M A)
    (h : ErrKind -> M A) :
  adds f a m -> (forall e, adds f b (h e)) -> adds f (a + b) (catch m h).
Proof.
  intros Hm Hh w. unfold catch. specialize (Hm w).
  destruct (m w) as [[x|e] w']; simpl in *; [|specialize (Hh e w')]; lia.
Qed.

Lemma adds_if {A} (f : World -> nat) (a b : nat) (c : bool) (m1 m2 : M A) :
  adds f a m1 -> adds f b m2 -> adds f (a + b) (if c then m1 else m2).
Proof. intros H1 H2 w. destruct c; [specialize (H1 w)|specialize (H2 w)]; lia. Qed.

Lemma adds_weaken {A} (f : World -> nat) (n n' : nat) (m : M A) :
  adds f n m -> (n <= n')%nat -> adds f n' m.
Proof. intros H Hle w. specialize (H w). lia. Qed.

Definition nsent (w : World) : nat := length (sentNonces w).

Lemma external_nsent : adds nsent 0 external.
Proof. intro w. unfold nsent, external. destruct (oracle w) as [|[| |e] r]; simpl; lia. Qed.

Lemma external_quotes : adds quotes 0 external.
Proof. apply adds_keeps, keeps_external_quotes. Qed.

Lemma readAllowance_nsent : adds nsent 0 readAllowance.
Proof. intro w. unfold nsent, readAllowance. destruct (oracle w) as [|[| |e] r]; simpl; lia. Qed.

Lemma readAllowance_quotes : adds quotes 0 readAllowance.
Proof. apply adds_keeps, keeps_readAllowance_quotes. Qed.

Lemma logSent_nsent (n : Z) : adds nsent 1 (logSent n).
Proof. intro w. unfold nsent. simpl. lia. Qed.

Lemma logSent_quotes (n : Z) : adds quotes 0 (logSent n).
Proof. intro w. simpl. lia. Qed.

Lemma countQuote_quotes : adds quotes 1 countQuote.
Proof. intro w. simpl. lia. Qed.

Lemma countQuote_nsent : adds nsent 0 countQuote.
Proof. intro w. unfold nsent. simpl. lia. Qed.

Lemma setNM_adds (f : World -> nat) (n : NonceManager) :
  (f = nsent \/ f = quotes) -> adds f 0 (setNM n).
Proof. intros [->| ->] w; unfold nsent; simpl; lia. Qed.

Lemma confirm_adds (f : World -> nat) (n : Z) :
  (f = nsent \/ f = quotes) -> adds f 0 (confirm n).
Proof. intros [->| ->] w; unfold nsent; simpl; lia. Qed.

Lemma reset_adds (f : World -> nat) :
  (f = nsent \/ f = quotes) -> adds f 0 reset.
Proof. intros [->| ->] w; unfold nsent; simpl; lia. Qed.

End Bounds.

Create HintDb bounds.
#[export] Hint Resolve adds_ret adds_throw adds_get adds_bind adds_catch adds_if
  external_nsent external_quotes readAllowance_nsent readAllowance_quotes
  logSent_nsent logSent_quotes
  countQuote_quotes countQuote_nsent : bounds.
#[export] Hint Extern 1 (adds _ _ (Swap.setNM _)) =>
  apply setNM_adds; auto : bounds.
#[export] Hint Extern 1 (adds _ _ (Swap.confirm _)) =>
  apply confirm_adds; auto : bounds.
#[export] Hint Extern 1 (adds _ _ Swap.reset) =>
  apply reset_adds; auto : bounds.
#[export] Hint Extern 1 (forall _, adds _ _ _) => intro : bounds.
#[export] Hint Extern 2 (adds _ _ (match ?x with _ => _ end)) =>
  destruct x : bounds.

Ltac bound :=
  eapply adds_weaken;
  [ repeat (unfold Swap.sendTransaction, Swap.nmSendTransaction,
              Swap.approveToken, Swap.permit2Approve);
    eauto 40 with bounds
  | simpl; lia ].

Lemma sendTransaction_nsent : adds nsent 1 Swap.sendTransaction.
Proof. bound. Qed.

Lemma sendTransaction_quotes : adds Swap.quotes 0 Swap.sendTransaction.
Proof. bound. Qed.

#[export] Hint Resolve sendTransaction_nsent sendTransaction_quotes : bounds.

Lemma submitWithNonceRetry_nsent : adds nsent 2 Swap.submitWithNonceRetry.
Proof.
  unfold Swap.submitWithNonceRetry.
  eapply adds_weaken; [eauto 10 with bounds | simpl; lia].
Qed.

Lemma submitWithNonceRetry_quotes : adds Swap.quotes 0 Swap.submitWithNonceRetry.
Proof. unfold Swap.submitWithNonceRetry. bound. Qed.

#[export] Hint Resolve submitWithNonceRetry_quotes : bounds.

Lemma swapTokensDirect_quotes (a : Z) : adds Swap.quotes 1 (Swap.swapTokensDirect a).
Proof. unfold Swap.swapTokensDirect. bound. Qed.

Definition freshWorld (orc : list Swap.Event) : Swap.World :=
  Swap.mkWorld 5 (Swap.mkNM None 0) orc [] 0 0 [].

(** C6 counterexample: a non-retryable failure (here the Kyber route
    request fails) does not propagate: [swapTokens] returns [null].  The
    direct router variant also returns [null] on a [CallFailed] revert of
    the swap submission, after a single quote. *)
Lemma swapTokens_failure_returns_null :
  fst (Swap.swapTokensKyber 1 (freshWorld [Swap.EvErr Swap.OtherError]))
    = Swap.Ok None /\
  Swap.swapTokensKyber 1 (freshWorld [Swap.EvErr Swap.OtherError])
    = (Swap.Ok None, Swap.mkWorld 5 (Swap.mkNM None 0) [] [] 0 1 []) /\
  fst (Swap.swapTokensDirect 1
         (freshWorld [Swap.EvOk; Swap.EvOk; Swap.EvOk; Swap.EvOk; Swap.EvOk;
                      Swap.EvErr Swap.CallFailed])) = Swap.Ok None /\
  Swap.quotes (snd (Swap.swapTokensDirect 1
         (freshWorld [Swap.EvOk; Swap.EvOk; Swap.EvOk; Swap.EvOk; Swap.EvOk;
                      Swap.EvErr Swap.CallFailed]))) = 1%nat.
Proof. repeat split. Qed.

Section NullSwap.

Import Swap.

(** [rebalance] with a swap step that needs a swap, where [swapTokens]
    returns [null]: the run fails, and it is the same whatever
    [createPosition] and [stakeToGauge] would do. *)
Lemma rebalance_null_swap_core (isStaked : bool) (gaugeAddress : option Z)
    (unstake : M unit) (plan : M (option (Rebalance.Direction * Z)))
    (swap : Z -> M (option Z)) (d : Rebalance.Direction) (a : Z)
    (createPosition createPosition' : M (option Z)) (stake stake' : Z -> M unit)
    (w : World) :
  (forall w, fst (plan w) = Ok (Some (d, a))) ->
  (forall w, fst (swap a w) = Ok None) ->
  Rebalance.rebalance isStaked gaugeAddress unstake plan swap createPosition stake w =
  Rebalance.rebalance isStaked gaugeAddress unstake plan swap createPosition' stake' w /\
  exists e, fst (Rebalance.rebalance isStaked gaugeAddress unstake plan swap
                  createPosition stake w) = Throw e.
Proof.
  intros Hp Hs.
  unfold Rebalance.rebalance, bind, catch, setStage, modify, ret, throw.
  destruct isStaked, gaugeAddress; simpl;
  repeat (simpl; first
    [ match goal with
      | |- context [match plan ?w with _ => _ end] =>
        let H := fresh in pose proof (Hp w) as H;
        destruct (plan w) as [[?|?] ?]; simpl in H; [injection H as ->|discriminate]
      end
    | match goal with
      | |- context [match swap a ?w with _ => _ end] =>
        let H := fresh in pose proof (Hs w) as H;
        destruct (swap a w) as [[?|?] ?]; simpl in H; [injection H as ->|discriminate]
      end
    | match goal with
      | |- context [match ?m ?w with _ => _ end] =>
        destruct (m w) as [[?|?] ?] end ]);
  (split; [reflexivity | eexists; reflexivity]).
Qed.

End NullSwap.

(** C6 (corrected).  Kyber variant: when an attempt (route, build, router
    checks, approval, submit) fails with a retryable kind ([CallFailed],
    [InsufficientReturn], [TransferFromFailed]) exactly one more attempt
    runs, with a fresh quote; any other failure gets no retry; and every
    failure that remains is caught, so [swapTokens] returns [null] instead
    of raising.  The direct router variant quotes at most once (no retry)
    and never raises either.  The caller [rebalance] turns a [null] swap
    result into an error that aborts it before mint: the run fails and
    does not depend on [createPosition] or [stakeToGauge]. *)
Theorem swapTokens_retry_once_then_null (amountIn : Z) (w : Swap.World)
    (H : amountIn <> 0) :
  Swap.swapTokensKyber amountIn w =
    match Swap.runSwapAttempt w with
    | (Swap.Ok r, w1) => (Swap.Ok (Some r), w1)
    | (Swap.Throw e, w1) =>
      if Swap.retryableRouteError e then
        match Swap.runSwapAttempt w1 with
        | (Swap.Ok r, w2) => (Swap.Ok (Some r), w2)
        | (Swap.Throw _, w2) => (Swap.Ok None, w2)
        end
      else (Swap.Ok None, w1)
    end /\
  (forall w', Swap.quotes (snd (Swap.runSwapAttempt w')) = S (Swap.quotes w')) /\
  (exists o, fst (Swap.swapTokensDirect amountIn w) = Swap.Ok o) /\
  (Swap.quotes (snd (Swap.swapTokensDirect amountIn w)) <= S (Swap.quotes w))%nat /\
  (forall (isStaked : bool) (gaugeAddress : option Z) (unstake : Swap.M unit)
     (plan : Swap.M (option (Rebalance.Direction * Z)))
     (swap : Z -> Swap.M (option Z)) (d : Rebalance.Direction) (a : Z)
     (createPosition createPosition' : Swap.M (option Z))
     (stake stake' : Z -> Swap.M unit) (w' : Swap.World),
     (forall w0, fst (plan w0) = Swap.Ok (Some (d, a))) ->
     (forall w0, fst (swap a w0) = Swap.Ok None) ->
     Rebalance.rebalance isStaked gaugeAddress unstake plan swap createPosition stake w' =
     Rebalance.rebalance isStaked gaugeAddress unstake plan swap createPosition' stake' w' /\
     exists e, fst (Rebalance.rebalance isStaked gaugeAddress unstake plan swap
                     createPosition stake w') = Swap.Throw e).
Proof.
  split; [|split; [exact runSwapAttempt_one_quote|split; [|split]]].
  - unfold Swap.swapTokensKyber. rewrite (proj2 (Z.eqb_neq _ _) H).
    unfold Swap.catch, Swap.bind, Swap.ret.
    destruct (Swap.runSwapAttempt w) as [[r|e] w1]; [reflexivity|].
    destruct (Swap.retryableRouteError e); [|reflexivity].
    destruct (Swap.runSwapAttempt w1) as [[r|e'] w2]; reflexivity.
  - unfold Swap.swapTokensDirect. rewrite (proj2 (Z.eqb_neq _ _) H).
    unfold Swap.catch at 1.
    match goal with |- context [match ?m w with _ => _ end] =>
      destruct (m w) as [[r|e] w1] end; eexists; reflexivity.
  - pose proof (swapTokensDirect_quotes amountIn w). lia.
  - intros. eapply rebalance_null_swap_core; eassumption.
Qed.

Lemma swapTokens_retry_once_then_null_witness :
  Swap.swapTokensKyber 1 (freshWorld []) =
    match Swap.runSwapAttempt (freshWorld []) with
    | (Swap.Ok r, w1) => (Swap.Ok (Some r), w1)
    | (Swap.Throw e, w1) =>
      if Swap.retryableRouteError e then
        match Swap.runSwapAttempt w1 with
        | (Swap.Ok r, w2) => (Swap.Ok (Some r), w2)
        | (Swap.Throw _, w2) => (Swap.Ok None, w2)
        end
      else (Swap.Ok None, w1)
    end.
Proof.
  exact (proj1 (swapTokens_retry_once_then_null 1 (freshWorld [])
                  ltac:(discriminate))).
Defined.

Lemma swapStage_stage (swap : Z -> Swap.M (option Z)) (a : Z) (w : Swap.World) :
  keeps Swap.stageLog (swap a) ->
  Swap.stageLog (snd (Swap.swapStage swap a w)) = Swap.Swapping :: Swap.stageLog w.
Proof.
  intros Hs. unfold Swap.swapStage, Swap.setStage. rewrite bind_modify_eq.
  cbv beta.
  match goal with
  | |- Swap.stageLog (snd (?m ?w')) = _ =>
    assert (K : keeps Swap.stageLog m) by frame; rewrite (K w')
  end.
  reflexivity.
Qed.

Lemma sendTransaction_keeps_resets : keeps Swap.resets Swap.sendTransaction.
Proof. frame. Qed.

Lemma approveToken_keeps_resets : keeps Swap.resets Swap.approveToken.
Proof. frame. Qed.

Lemma createPosition_keeps_resets : keeps Swap.resets Swap.createPosition.
Proof.
  unfold Swap.createPosition.
  eauto 20 using sendTransaction_keeps_resets, approveToken_keeps_resets with frame.
Qed.

Lemma nmSendTransaction_nsent : adds nsent 1 Swap.nmSendTransaction.
Proof. bound. Qed.

Lemma approveToken_nsent : adds nsent 1 Swap.approveToken.
Proof.
  unfold Swap.approveToken.
  eapply adds_weaken; [eauto 10 using nmSendTransaction_nsent with bounds | simpl; lia].
Qed.

Lemma createPosition_nsent : adds nsent 3 Swap.createPosition.
Proof.
  unfold Swap.createPosition. eapply adds_weaken;
    [eauto 20 using approveToken_nsent with bounds | simpl; lia].
Qed.

(** Scenario E: a cached nonce 3 behind the chain's 5. *)
Definition staleNonceWorld : Swap.World :=
  Swap.mkWorld 5 (Swap.mkNM (Some 3) 0) [] [] 0 0 [].



(* ================================================================= *)
(** * Further properties of the embedded code *)

(* ----------------------------------------------------------------- *)
(** ** findPool *)

Section FirstHit.

Context {X : Type}.

(** The first probe that answers with a non-zero address. *)
Fixpoint firstHit (h : X -> option Z) (l : list X) : option Z :=
  match l with
  | [] => None
  | x :: rest =>
    match h x with
    | Some a => if (a =? 0)%Z then firstHit h rest else Some a
    | None => firstHit h rest
    end
  end.

Lemma firstHit_app (h : X -> option Z) (l1 l2 : list X) :
  firstHit h (l1 ++ l2) =
    match firstHit h l1 with Some a => Some a | None => firstHit h l2 end.
Proof.
  induction l1 as [|x l1 IH]; simpl; [reflexivity|].
  destruct (h x) as [a|]; [destruct (a =? 0)|]; auto.
Qed.

Definition miss (h : X -> option Z) (x : X) : Prop := h x = None \/ h x = Some 0.

Lemma firstHit_some (h : X -> option Z) (l : list X) (a : Z) :
  firstHit h l = Some a <->
  exists l1 x l2, l = l1 ++ x :: l2 /\ Forall (miss h) l1 /\ h x = Some a /\ a <> 0.
Proof.
  induction l as [|x l IH]; simpl.
  - split; [discriminate|]. intros (l1 & x & l2 & E & _). destruct l1; discriminate.
  - split.
    + intros H. destruct (h x) as [b|] eqn:Hx.
      * destruct (b =? 0) eqn:Hb.
        -- apply IH in H. destruct H as (l1 & y & l2 & -> & F & Hy & Ha).
           exists (x :: l1), y, l2. repeat split; auto.
           constructor; [right; apply Z.eqb_eq in Hb; subst; exact Hx|exact F].
        -- injection H as <-. exists [], x, l. repeat split; auto.
           apply Z.eqb_neq; exact Hb.
      * apply IH in H. destruct H as (l1 & y & l2 & -> & F & Hy & Ha).
        exists (x :: l1), y, l2. repeat split; auto. constructor; [left; exact Hx|exact F].
    + intros (l1 & y & l2 & E & F & Hy & Ha). destruct l1 as [|z l1]; simpl in E.
      * injection E as -> ->. rewrite Hy. rewrite (proj2 (Z.eqb_neq _ _) Ha). reflexivity.
      * injection E as -> ->. inversion F as [|? ? Hz F']; subst.
        assert (Hrest : firstHit h (l1 ++ y :: l2) = Some a)
          by (apply IH; exists l1, y, l2; auto).
        destruct Hz as [Hz|Hz]; rewrite Hz; [exact Hrest|]. simpl. exact Hrest.
Qed.

Lemma firstHit_none (h : X -> option Z) (l : list X) :
  firstHit h l = None <-> Forall (miss h) l.
Proof.
  induction l as [|x l IH]; simpl.
  - split; auto.
  - rewrite Forall_cons_iff, <- IH. unfold miss.
    destruct (h x) as [b|]; [destruct (b =? 0) eqn:Hb|].
    + apply Z.eqb_eq in Hb; subst. intuition congruence.
    + apply Z.eqb_neq in Hb. intuition congruence.
    + intuition congruence.
Qed.

End FirstHit.

Lemma tryFees_firstHit (g : Z -> option Z) (fees : list Z) :
  Pool.tryFees g fees = firstHit g fees.
Proof. induction fees as [|f fees IH]; simpl; [reflexivity|]. rewrite IH. reflexivity. Qed.

Lemma findPool_firstHit (cf : Z) (g : Z -> Z -> option Z) :
  Pool.findPool cf g =
    firstHit (fun '(f, fee) => g f fee) (Pool.probeOrder (Pool.factories cf)).
Proof.
  unfold Pool.findPool, Pool.probeOrder.
  induction (Pool.factories cf) as [|f fs IH]; [reflexivity|].
  cbn [Pool.tryFactories flat_map].
  rewrite firstHit_app, tryFees_firstHit, IH.
  replace (firstHit (fun '(f0, fee) => g f0 fee) (map (fun fee => (f, fee)) Pool.feeTiers))
    with (firstHit (g f) Pool.feeTiers); [reflexivity|].
  clear IH. induction Pool.feeTiers as [|x xs IHx]; simpl; [reflexivity|].
  rewrite IHx. reflexivity.
Qed.

(** X1. [findPool] returns an address exactly when some probe, in
    factory-major and fee-minor order, answers a non-zero address after all
    earlier probes threw or answered the zero address; that address is the
    one returned. *)
Theorem findPool_first_match (configFactory : Z) (getPool : Z -> Z -> option Z) (a : Z) :
  Pool.findPool configFactory getPool = Some a <->
  exists l1 f fee l2,
    Pool.probeOrder (Pool.factories configFactory) = l1 ++ (f, fee) :: l2 /\
    Forall (fun '(f', fee') => getPool f' fee' = None \/ getPool f' fee' = Some 0) l1 /\
    getPool f fee = Some a /\ a <> 0.
Proof.
  rewrite findPool_firstHit, firstHit_some.
  split.
  - intros (l1 & [f fee] & l2 & E & F & H & Ha). exists l1, f, fee, l2.
    repeat split; auto. eapply Forall_impl; [|exact F]. intros [x y]; auto.
  - intros (l1 & f & fee & l2 & E & F & H & Ha). exists l1, (f, fee), l2.
    repeat split; auto. eapply Forall_impl; [|exact F]. intros [x y]; auto.
Qed.

(** X2. [findPool] returns [null] exactly when every one of the 3 x 8 factory
    and fee probes throws or answers the zero address. *)
Theorem findPool_null (configFactory : Z) (getPool : Z -> Z -> option Z) :
  Pool.findPool configFactory getPool = None <->
  (forall f fee, In f (Pool.factories configFactory) -> In fee Pool.feeTiers ->
     getPool f fee = None \/ getPool f fee = Some 0).
Proof.
  rewrite findPool_firstHit, firstHit_none, Forall_forall. unfold Pool.probeOrder.
  split.
  - intros H f fee Hf Hfee. apply (H (f, fee)). apply in_flat_map. exists f. split; [exact Hf|].
    apply in_map. exact Hfee.
  - intros H [f fee] Hin. apply in_flat_map in Hin. destruct Hin as (f' & Hf' & Hin).
    apply in_map_iff in Hin. destruct Hin as (fee' & E & Hfee). injection E as <- <-.
    apply H; assumption.
Qed.

(* ----------------------------------------------------------------- *)
(** ** Amounts, gas and approvals *)

Lemma minAmount_nonneg_bounds (x bps : Z) :
  0 <= bps <= 10000 -> 0 <= x ->
  0 <= Amounts.minAmount x bps /\
  10000 * Amounts.minAmount x bps <= x * (10000 - bps) < 10000 * Amounts.minAmount x bps + 10000.
Proof.
  intros Hb Hx. unfold Amounts.minAmount.
  rewrite Z.quot_div_nonneg by nia.
  pose proof (Z.div_mod (x * (10000 - bps)) 10000 ltac:(lia)).
  pose proof (Z.mod_pos_bound (x * (10000 - bps)) 10000 ltac:(lia)).
  split; [apply Z.div_pos; nia|]. lia.
Qed.

(** X3. The slippage floor [(x * (10000 - bps)) / 10000n] used for
    [amountOutMinimum], [amount0Min] and [amount1Min] lies in [0, x], is at
    most [x * (1 - bps/10000)] and below it by less than one unit, and grows
    with [x]. *)
Theorem minAmount_bounds (x bps : Z) (Hb : 0 <= bps <= 10000) (Hx : 0 <= x) :
  0 <= Amounts.minAmount x bps <= x /\
  10000 * Amounts.minAmount x bps <= x * (10000 - bps) /\
  x * (10000 - bps) < 10000 * Amounts.minAmount x bps + 10000 /\
  (forall y, x <= y -> Amounts.minAmount x bps <= Amounts.minAmount y bps).
Proof.
  destruct (minAmount_nonneg_bounds x bps Hb Hx) as (H0 & H1 & H2).
  split; [split; [exact H0|nia]|]. split; [exact H1|]. split; [exact H2|].
  intros y Hy. unfold Amounts.minAmount.
  rewrite !Z.quot_div_nonneg by nia.
  apply Z.div_le_mono; nia.
Qed.

Lemma minAmount_bounds_witness :
  0 <= 300 <= 10000 /\ 0 <= 1000 /\
  Amounts.minAmount 1000 300 = 970 /\
  0 <= Amounts.minAmount 1000 300 <= 1000.
Proof.
  split; [lia|]. split; [lia|]. split; [reflexivity|].
  exact (proj1 (minAmount_bounds 1000 300 ltac:(lia) ltac:(lia))).
Defined.

(** X4. With [SLIPPAGE_BPS] unset, zero or in [0, 10000],
    [config.slippageBps] is in (0, 10000] and the swap's [amountOutMinimum]
    is strictly below a positive quoted [expectedOut]. *)
Theorem amountOutMinimum_below_quote (env : option Z) (expectedOut : Z)
    (Henv : forall v, env = Some v -> 0 <= v <= 10000) (Hq : 0 < expectedOut) :
  0 < Config.slippageBps env <= 10000 /\
  0 <= Amounts.minAmount expectedOut (Config.slippageBps env) < expectedOut.
Proof.
  assert (Hb : 0 < Config.slippageBps env <= 10000).
  { unfold Config.slippageBps, Config.orDefaultZ.
    destruct env as [v|]; [|lia].
    specialize (Henv v eq_refl). destruct (v =? 0) eqn:E; [lia|].
    apply Z.eqb_neq in E. lia. }
  split; [exact Hb|].
  destruct (minAmount_nonneg_bounds expectedOut (Config.slippageBps env) ltac:(lia) ltac:(lia))
    as (H0 & H1 & H2).
  split; [exact H0|]. nia.
Qed.

Lemma amountOutMinimum_below_quote_witness :
  Config.slippageBps (Some 0) = 300 /\
  0 <= Amounts.minAmount 1000 (Config.slippageBps (Some 0)) < 1000.
Proof.
  split; [reflexivity|].
  refine (proj2 (amountOutMinimum_below_quote (Some 0) 1000 _ ltac:(lia))).
  intros v E. injection E as <-. lia.
Defined.

(** X5. [sendTransaction] sets [gasLimit = estimatedGas * 120n / 100n]: never
    below the estimate, and 20% above it rounded down. *)
Theorem gasLimit_margin (estimatedGas : Z) (H : 0 <= estimatedGas) :
  estimatedGas <= Amounts.gasLimit estimatedGas /\
  5 * Amounts.gasLimit estimatedGas <= 6 * estimatedGas < 5 * Amounts.gasLimit estimatedGas + 5.
Proof.
  unfold Amounts.gasLimit. rewrite Z.quot_div_nonneg by lia.
  pose proof (Z.div_mod (estimatedGas * 120) 100 ltac:(lia)).
  pose proof (Z.mod_pos_bound (estimatedGas * 120) 100 ltac:(lia)).
  lia.
Qed.

Lemma gasLimit_margin_witness :
  Amounts.gasLimit 21000 = 25200 /\ 21000 <= Amounts.gasLimit 21000.
Proof. split; [reflexivity|]. exact (proj1 (gasLimit_margin 21000 ltac:(lia))). Defined.

Lemma approveIfBelow_mono (max amount : Z) (a : Approve.Allowance) :
  amount <= max ->
  Approve.allowance a <= Approve.allowance (Approve.approveIfBelow max amount a) /\
  amount <= Approve.allowance (Approve.approveIfBelow max amount a).
Proof.
  intros H. unfold Approve.approveIfBelow.
  destruct (Approve.allowance a <? amount) eqn:E;
    [apply Z.ltb_lt in E|apply Z.ltb_ge in E]; simpl; lia.
Qed.

(** X7. Repeated [approveToken] calls for one spender with amounts up to
    [MaxUint256] send at most one approval; afterwards the allowance covers
    every amount, and no approval is sent when the allowance already covers
    them all. *)
Theorem approve_at_most_once (max : Z) (amounts : list Z) (a : Approve.Allowance)
    (Hmax : Forall (fun x => x <= max) amounts) :
  let a' := Approve.approveAll max amounts a in
  (Approve.approvals a' <= S (Approve.approvals a))%nat /\
  (forall x, In x amounts -> x <= Approve.allowance a') /\
  (Forall (fun x => x <= Approve.allowance a) amounts -> a' = a).
Proof.
  cbv zeta. unfold Approve.approveAll.
  revert a. induction amounts as [|x xs IH]; intros a; simpl.
  { split; [lia|]. split; [tauto|reflexivity]. }
  inversion Hmax as [|? ? Hx Hxs]; subst. cbv beta in Hx. specialize (IH Hxs).
  destruct (Approve.allowance a <? x) eqn:E.
  - apply Z.ltb_lt in E.
    assert (Ea : Approve.approveIfBelow max x a
                 = Approve.mkAllowance max (S (Approve.approvals a)))
      by (unfold Approve.approveIfBelow; rewrite (proj2 (Z.ltb_lt _ _) E); reflexivity).
    rewrite Ea.
    destruct (IH (Approve.mkAllowance max (S (Approve.approvals a))))
      as (_ & Hin & Hfix). rewrite (Hfix Hxs).
    split; [simpl; lia|]. split.
    + intros y [<-|Hy]; simpl; [lia|]. rewrite Forall_forall in Hxs. auto.
    + intros F. inversion F as [|? ? Hf]; cbv beta in Hf; lia.
  - apply Z.ltb_ge in E.
    assert (Ea : Approve.approveIfBelow max x a = a)
      by (unfold Approve.approveIfBelow; rewrite (proj2 (Z.ltb_ge _ _) E); reflexivity).
    rewrite Ea. destruct (IH a) as (Hn & Hin & Hfix).
    split; [exact Hn|]. split.
    + intros y [<-|Hy]; [|auto].
      clear -E Hxs. revert a E. induction xs as [|z zs IHz]; intros a E; simpl; [exact E|].
      inversion Hxs as [|? ? Hz Hzs]; subst. cbv beta in Hz. apply IHz; [assumption|].
      pose proof (approveIfBelow_mono max z a Hz). lia.
    + intros F. inversion F; subst. auto.
Qed.

Lemma approve_at_most_once_witness :
  Approve.approveAll Approve.MaxUint256 [5; 10; 3] (Approve.mkAllowance 0 0)
    = Approve.mkAllowance Approve.MaxUint256 1 /\
  Nat.le (Approve.approvals
     (Approve.approveAll Approve.MaxUint256 [5; 10; 3] (Approve.mkAllowance 0 0))) 1.
Proof.
  split; [reflexivity|].
  refine (proj1 (approve_at_most_once Approve.MaxUint256 [5; 10; 3]
                   (Approve.mkAllowance 0 0) _)).
  repeat constructor; unfold Approve.MaxUint256; lia.
Defined.

(* ----------------------------------------------------------------- *)
(** ** Position selection and the wallet bootstrap range *)

Lemma isInRange_false (p : Status.Position) (t : Z) :
  Status.isInRange (Status.checkPositionStatus p t) = false ->
  t < Status.pos_tickLower p \/ Status.pos_tickUpper p < t.
Proof.
  unfold Status.checkPositionStatus; simpl.
  destruct (t <? Status.pos_tickLower p) eqn:E1; [apply Z.ltb_lt in E1; auto|].
  destruct (Status.pos_tickUpper p <? t) eqn:E2; [apply Z.ltb_lt in E2; auto|].
  discriminate.
Qed.

Lemma isInRange_true (p : Status.Position) (t : Z) :
  Status.isInRange (Status.checkPositionStatus p t) = true ->
  Status.pos_tickLower p <= t <= Status.pos_tickUpper p.
Proof.
  unfold Status.checkPositionStatus; simpl.
  destruct (t <? Status.pos_tickLower p) eqn:E1; [discriminate|apply Z.ltb_ge in E1].
  destruct (Status.pos_tickUpper p <? t) eqn:E2; [discriminate|apply Z.ltb_ge in E2].
  lia.
Qed.

(** X8. In [checkAndRebalance], every rebalance candidate comes from a
    position strictly outside its range whose rounded [percentOutOfRange]
    reaches the threshold, every auto-stake target is in range, unstaked and
    has a gauge, and no position is in both lists. *)
Theorem rebalance_and_autostake_disjoint (threshold : Q)
    (raw : list (Status.Position * Z)) :
  let ps := map (fun '(p, t) => Select.entry p t) raw in
  (forall e, In e (Select.rebalanceCandidates threshold ps) ->
     exists p t, In (p, t) raw /\ e = Select.entry p t /\
       (t < Status.pos_tickLower p \/ Status.pos_tickUpper p < t) /\
       (threshold <= Select.percent e)%Q) /\
  (forall e, In e (Select.unstakedInRangePositions ps) ->
     exists p t, In (p, t) raw /\ e = Select.entry p t /\
       Status.pos_tickLower p <= t <= Status.pos_tickUpper p /\
       Status.isStaked p = false /\ Status.gaugeAddress p <> None) /\
  (forall e, In e (Select.rebalanceCandidates threshold ps) ->
     ~ In e (Select.unstakedInRangePositions ps)).
Proof.
  cbv zeta. unfold Select.rebalanceCandidates, Select.outOfRangePositions,
    Select.unstakedInRangePositions.
  split; [|split].
  - intros e He. apply filter_In in He. destruct He as [He Hth].
    apply filter_In in He. destruct He as [He Hout].
    apply in_map_iff in He. destruct He as ([p t] & <- & Hin).
    exists p, t. split; [exact Hin|]. split; [reflexivity|]. split.
    + apply isInRange_false.
      cbn [Select.isInRange Select.entry Select.e_status] in Hout.
      apply negb_true_iff in Hout. exact Hout.
    + apply Qle_bool_iff. exact Hth.
  - intros e He. apply filter_In in He. destruct He as [He Hc].
    apply in_map_iff in He. destruct He as ([p t] & <- & Hin).
    exists p, t. split; [exact Hin|]. split; [reflexivity|].
    cbn [Select.isInRange Select.entry Select.e_status Select.e_isStaked
         Select.e_gaugeAddress] in Hc.
    apply andb_true_iff in Hc. destruct Hc as [Hc Hg].
    apply andb_true_iff in Hc. destruct Hc as [Er Hst].
    split; [apply isInRange_true; exact Er|].
    split; [apply negb_true_iff; exact Hst|].
    destruct (Status.gaugeAddress p); [discriminate|discriminate].
  - intros e He1 He2. apply filter_In in He1. destruct He1 as [He1 _].
    apply filter_In in He1. destruct He1 as [_ Hout].
    apply filter_In in He2. destruct He2 as [_ Hin].
    destruct (Select.isInRange e); discriminate.
Qed.

(** X9. [PositionMonitor.getOutOfRangePositions] selects the same positions
    as the candidate filter of [checkAndRebalance], and raising the threshold
    only removes candidates. *)
Theorem getOutOfRangePositions_agrees (threshold : Q) (ps : list Select.Entry) :
  Select.getOutOfRangePositions threshold ps = Select.rebalanceCandidates threshold ps /\
  (forall threshold', (threshold <= threshold')%Q ->
     incl (Select.rebalanceCandidates threshold' ps)
          (Select.rebalanceCandidates threshold ps)).
Proof.
  unfold Select.getOutOfRangePositions, Select.rebalanceCandidates,
    Select.outOfRangePositions.
  split.
  - induction ps as [|p ps IH]; simpl; [reflexivity|].
    destruct (Select.isInRange p); simpl; [exact IH|].
    destruct (Qle_bool threshold (Select.percent p)); simpl; rewrite IH; reflexivity.
  - intros th' Hle e He. apply filter_In in He. destruct He as [He Hth].
    apply filter_In. split; [exact He|].
    apply Qle_bool_iff. apply Qle_bool_iff in Hth. apply Qle_trans with th'; assumption.
Qed.

Lemma toFixed2_below_20 (x : Q) :
  (x < 19995 # 1000)%Q -> (Select.toFixed2 x < 20)%Q.
Proof.
  intros Hx. unfold Select.toFixed2.
  destruct (Qle_bool 0 x) eqn:E.
  - assert (Hf : (Qfloor (x * 100 + (1 # 2)) < 2000)%Z).
    { rewrite Zlt_Qlt. apply Qle_lt_trans with (1 := Qfloor_le _).
      apply Qlt_le_trans with ((19995 # 1000) * 100 + (1 # 2))%Q.
      - apply Qplus_lt_l. apply Qmult_lt_r; [reflexivity|exact Hx].
      - vm_compute. discriminate. }
    revert Hf. generalize (Qfloor (x * 100 + (1 # 2))). intros n Hn.
    unfold Qlt; simpl. lia.
  - assert (Hneg : (x < 0)%Q).
    { apply Qnot_le_lt. intro H. apply Qle_bool_iff in H. congruence. }
    assert (Hf : (0 <= Qfloor (- x * 100 + (1 # 2)))%Z).
    { change 0%Z with (Qfloor 0). apply Qfloor_resp_le.
      apply Qle_trans with (- x * 100)%Q.
      - apply Qmult_le_0_compat; [|discriminate].
        apply Qlt_le_weak in Hneg. apply Qopp_le_compat in Hneg. exact Hneg.
      - rewrite <- (Qplus_0_r (- x * 100)) at 1. apply Qplus_le_r. discriminate. }
    revert Hf. generalize (Qfloor (- x * 100 + (1 # 2))). intros n Hn.
    unfold Qlt; simpl. lia.
Qed.

(** X10. [REBALANCE_THRESHOLD=0] falls back to 20 through [|| 20], so a
    position less than 19.995% out of range is not a rebalance candidate. *)
Theorem rebalanceThreshold_zero_env (e : Select.Entry) (ps : list Select.Entry)
    (Hp : (Status.percentOutOfRange (Select.e_status e) < 19995 # 1000)%Q) :
  (Config.rebalanceThreshold (Some 0%Q) == 20)%Q /\
  ~ In e (Select.rebalanceCandidates (Config.rebalanceThreshold (Some 0%Q)) ps).
Proof.
  split; [reflexivity|].
  intros He. apply filter_In in He. destruct He as [_ Hth].
  apply Qle_bool_iff in Hth. apply (Qlt_not_le _ _ (toFixed2_below_20 _ Hp)).
  exact Hth.
Qed.

Definition tenPercentBelow : Select.Entry :=
  Select.entry (Status.mkPosition 1 0 0 0 100 1 None false None) (-10).

Lemma rebalanceThreshold_zero_env_witness :
  In tenPercentBelow (Select.outOfRangePositions [tenPercentBelow]) /\
  ~ In tenPercentBelow
      (Select.rebalanceCandidates (Config.rebalanceThreshold (Some 0%Q)) [tenPercentBelow]).
Proof.
  split; [left; reflexivity|].
  exact (proj2 (rebalanceThreshold_zero_env tenPercentBelow [tenPercentBelow]
                  ltac:(vm_compute; reflexivity))).
Defined.

(* ----------------------------------------------------------------- *)
(** ** Pool cache, pending slot and swap plan *)

Lemma lookup_update (c : Cache.Pools) (a : Z) (f : Cache.PoolInfo -> Cache.PoolInfo) :
  Cache.lookup (Cache.update c a f) a = option_map f (Cache.lookup c a).
Proof.
  induction c as [|[k v] c IH]; simpl; [reflexivity|].
  destruct (k =? a) eqn:E; simpl; rewrite E; [reflexivity|exact IH].
Qed.

(** X13. After [getPool] has cached a pool, later [getPool] calls answer from
    the cache without any chain reads; [getCurrentPrice] writes the fresh
    [slot0] tick into the cached object, so the next [getPool] sees it, and a
    failing [slot0] read leaves the cache unchanged. *)
Theorem getPool_cache_aliasing (chain chain' : Z -> option Cache.PoolInfo)
    (slot0Tick : Z -> option Z) (a : Z) (c c1 : Cache.Pools) (p : Cache.PoolInfo)
    (H : Cache.getPool chain a c = (Some p, c1)) :
  Cache.getPool chain' a c1 = (Some p, c1) /\
  (forall t, slot0Tick a = Some t ->
     exists c2, Cache.getCurrentPrice chain' slot0Tick a c1 = (Some t, c2) /\
       Cache.getPool chain' a c2 =
         (Some (Cache.mkPoolInfo (Cache.pi_token0 p) (Cache.pi_token1 p)
                  (Cache.pi_tickSpacing p) (Cache.pi_fee p) t), c2)) /\
  (slot0Tick a = None -> Cache.getCurrentPrice chain' slot0Tick a c1 = (None, c1)).
Proof.
  assert (Hl : Cache.lookup c1 a = Some p).
  { unfold Cache.getPool in H. destruct (Cache.lookup c a) as [q|] eqn:E.
    - injection H as <- <-. exact E.
    - destruct (chain a) as [q|]; [|discriminate]. injection H as <- <-.
      simpl. rewrite Z.eqb_refl. reflexivity. }
  assert (Hg : Cache.getPool chain' a c1 = (Some p, c1))
    by (unfold Cache.getPool; rewrite Hl; reflexivity).
  split; [exact Hg|]. split.
  - intros t Ht. unfold Cache.getCurrentPrice. rewrite Hg, Ht.
    eexists. split; [reflexivity|].
    unfold Cache.getPool. rewrite lookup_update, Hl. reflexivity.
  - intros Ht. unfold Cache.getCurrentPrice. rewrite Hg, Ht. reflexivity.
Qed.

Definition poolAt7 : Cache.PoolInfo := Cache.mkPoolInfo 1 2 60 500 (-10).

Lemma getPool_cache_aliasing_witness :
  Cache.getPool (fun _ => Some poolAt7) 7 [] = (Some poolAt7, [(7, poolAt7)]) /\
  Cache.getPool (fun _ => None) 7 [(7, poolAt7)] = (Some poolAt7, [(7, poolAt7)]).
Proof.
  split; [reflexivity|].
  exact (proj1 (getPool_cache_aliasing (fun _ => Some poolAt7) (fun _ => None)
                  (fun _ => Some 5) 7 [] [(7, poolAt7)] poolAt7 eq_refl)).
Defined.

(** X14. After the candidate loop of [checkAndRebalance], [pendingRebalance]
    is decided by the last candidate alone: cleared if it succeeded, left at
    its failing stage otherwise, unchanged when there was no candidate; the
    running and check-in-progress flags are untouched. *)
Theorem checkAndRebalance_pending_last
    (candidates : list (Z * option Swap.Stage)) (b : Orchestrator.Bot) :
  let b' := Orchestrator.checkAndRebalance candidates b in
  Orchestrator.isRunning b' = Orchestrator.isRunning b /\
  Orchestrator.isCheckInProgress b' = Orchestrator.isCheckInProgress b /\
  Orchestrator.pendingRebalance b' =
    match rev candidates with
    | [] => Orchestrator.pendingRebalance b
    | (_, None) :: _ => None
    | (t, Some s) :: _ => Some (Orchestrator.mkDescriptor t s)
    end.
Proof.
  cbv zeta. revert b. induction candidates as [|[t o] rest IH]; intros b; simpl.
  { auto. }
  destruct (IH (Orchestrator.rebalance t o b)) as (H1 & H2 & H3).
  rewrite H1, H2, H3.
  split; [destruct o; reflexivity|]. split; [destruct o; reflexivity|].
  destruct (rev rest) as [|[t' o'] r'] eqn:Er.
  - simpl. destruct o; reflexivity.
  - reflexivity.
Qed.

(** X15. Combined with [calculateOptimalRatio], the swap step of [rebalance]
    swaps the whole token1 balance to token0 when the tick is below the new
    range, the whole token0 balance to token1 when it is above, does nothing
    for a zero balance, and defers to the price math in range. *)
Theorem swapPlan_out_of_range (currentTick tickLower tickUpper decimals0 decimals1
    amount0 amount1 : Z) (inRangePlan : option (Rebalance.Direction * Z)) :
  let r := Ratio.calculateOptimalRatio currentTick tickLower tickUpper decimals0 decimals1 in
  (currentTick < tickLower ->
     Rebalance.swapPlan r amount0 amount1 inRangePlan =
       if 0 <? amount1 then Some (Rebalance.OneForZero, amount1) else None) /\
  (tickLower <= currentTick -> tickUpper < currentTick ->
     Rebalance.swapPlan r amount0 amount1 inRangePlan =
       if 0 <? amount0 then Some (Rebalance.ZeroForOne, amount0) else None) /\
  (tickLower <= currentTick <= tickUpper ->
     Rebalance.swapPlan r amount0 amount1 inRangePlan = inRangePlan).
Proof.
  cbv zeta. unfold Ratio.calculateOptimalRatio. cbv zeta.
  split; [|split].
  - intros H. rewrite (proj2 (Z.ltb_lt _ _) H). reflexivity.
  - intros H1 H2. rewrite (proj2 (Z.ltb_ge _ _) H1), (proj2 (Z.ltb_lt _ _) H2).
    reflexivity.
  - intros [H1 H2]. rewrite (proj2 (Z.ltb_ge _ _) H1), (proj2 (Z.ltb_ge _ _) H2).
    reflexivity.
Qed.

(* ----------------------------------------------------------------- *)
(** ** Stages of rebalance *)

Section Stages.

Import Swap.


(** The stages of [rebalance] in the order the code writes them. *)
Definition pipeline (isStaked : bool) (gaugeAddress : option Z) : list Stage :=
  [Starting] ++
  (if isStaked && match gaugeAddress with Some _ => true | None => false end
   then [Unstaking] else []) ++
  [Withdrawing; CheckingBalances; CalculatingRatio; Swapping; CreatingPosition] ++
  match gaugeAddress with Some _ => [StakingStage] | None => [] end.

Ltac rstep :=
  match goal with
  | |- context [match ?m ?w with _ => _ end] =>
    let L := fresh "L" in
    assert (L : stageLog (snd (m w)) = stageLog w)
      by (first [ apply keeps_external_stage | solve [auto] ]);
    destruct (m w) as [[?|?] ?]; simpl in L
  end.

Section RebalanceStages.

Variables (isStaked : bool) (gaugeAddress : option Z) (unstake : M unit)
  (plan : M (option (Rebalance.Direction * Z))) (swap : Z -> M (option Z))
  (createPosition : M (option Z)) (stake : Z -> M unit).
Hypotheses (Hu : forall w, stageLog (snd (unstake w)) = stageLog w)
  (Hp : forall w, stageLog (snd (plan w)) = stageLog w)
  (Hs : forall a w, stageLog (snd (swap a w)) = stageLog w)
  (Hc : forall w, stageLog (snd (createPosition w)) = stageLog w)
  (Hk : forall t w, stageLog (snd (stake t w)) = stageLog w).

(** X16. The stages [rebalance] writes to [pendingRebalance.stage] are a
    prefix of starting, unstaking (staked with a gauge only), withdrawing,
    checking_balances, calculating_ratio, swapping, creating_position,
    staking (gauge only): no stage is skipped, repeated or reordered. A
    successful run writes all of them; a failing run stops at a stage from
    withdrawing to creating_position, since unstake and stake failures are
    swallowed. *)
Theorem rebalance_stage_prefix (w : World) :
  exists k,
    stageLog (snd (Rebalance.rebalance isStaked gaugeAddress unstake plan swap
                     createPosition stake w)) =
      rev (firstn k (pipeline isStaked gaugeAddress)) ++ stageLog w /\
    match fst (Rebalance.rebalance isStaked gaugeAddress unstake plan swap
                 createPosition stake w) with
    | Ok _ => k = length (pipeline isStaked gaugeAddress)
    | Throw _ => exists s, nth_error (pipeline isStaked gaugeAddress) (k - 1) = Some s /\
                   In s [Withdrawing; CheckingBalances; CalculatingRatio; Swapping;
                         CreatingPosition]
    end.
Proof.
  unfold Rebalance.rebalance, bind, catch, setStage, modify, ret, throw.
  destruct isStaked, gaugeAddress; simpl;
  repeat (rstep; simpl; try match goal with
    | |- context [match ?o with Some _ => _ | None => _ end] =>
      is_var o; destruct o as [[? ?]|] end; try match goal with
    | |- context [match ?o with Some _ => _ | None => _ end] =>
      is_var o; destruct o end; simpl);
  repeat match goal with H : stageLog ?x = _ |- context [stageLog ?x] => rewrite H end;
  let fin := (simpl; split; [reflexivity | first [reflexivity | eexists; split; [reflexivity | simpl; tauto]]]) in
  first [ solve [exists 0%nat; fin] | solve [exists 1%nat; fin] | solve [exists 2%nat; fin]
        | solve [exists 3%nat; fin] | solve [exists 4%nat; fin] | solve [exists 5%nat; fin]
        | solve [exists 6%nat; fin] | solve [exists 7%nat; fin] | solve [exists 8%nat; fin] ].
Qed.

End RebalanceStages.

Lemma rebalance_stage_prefix_witness :
  exists k,
    stageLog (snd (Rebalance.rebalance true (Some 9) external
                     (ret (Some (Rebalance.ZeroForOne, 5))) swapTokensDirect
                     (ret (Some 42)) (fun _ => external) (freshWorld [EvOk; EvOk; EvErr CallFailed]))) =
      rev (firstn k (pipeline true (Some 9))) ++ stageLog (freshWorld [EvOk; EvOk; EvErr CallFailed]) /\
    match fst (Rebalance.rebalance true (Some 9) external
                 (ret (Some (Rebalance.ZeroForOne, 5))) swapTokensDirect
                 (ret (Some 42)) (fun _ => external) (freshWorld [EvOk; EvOk; EvErr CallFailed])) with
    | Ok _ => k = length (pipeline true (Some 9))
    | Throw _ => exists s, nth_error (pipeline true (Some 9)) (k - 1) = Some s /\
                   In s [Withdrawing; CheckingBalances; CalculatingRatio; Swapping;
                         CreatingPosition]
    end.
Proof.
  apply (rebalance_stage_prefix true (Some 9) external
           (ret (Some (Rebalance.ZeroForOne, 5))) swapTokensDirect (ret (Some 42))
           (fun _ => external)).
  - apply keeps_external_stage.
  - intro; reflexivity.
  - intro; apply swapTokensDirect_keeps_stage.
  - intro; reflexivity.
  - intro; apply keeps_external_stage.
Defined.

Ltac split_all :=
  repeat (simpl;
    first [ match goal with
            | |- context [match ?m ?w with _ => _ end] =>
              destruct (m w) as [[?|?] ?] end
          | match goal with
            | |- context [match ?o with Some _ => _ | None => _ end] =>
              is_var o; destruct o as [[? ?]|] end
          | match goal with
            | |- context [match ?o with Some _ => _ | None => _ end] =>
              is_var o; destruct o end ]).

(** X17. The result of [rebalance] does not depend on [stakeToGauge]: staking
    failures are swallowed and the new token id is returned either way. *)
Theorem rebalance_outcome_before_staking (isStaked : bool) (gaugeAddress : option Z)
    (unstake : M unit) (plan : M (option (Rebalance.Direction * Z)))
    (swap : Z -> M (option Z)) (createPosition : M (option Z))
    (stake stake' : Z -> M unit) (w : World) :
  fst (Rebalance.rebalance isStaked gaugeAddress unstake plan swap createPosition stake w) =
  fst (Rebalance.rebalance isStaked gaugeAddress unstake plan swap createPosition stake' w).
Proof.
  unfold Rebalance.rebalance, bind, catch, setStage, modify, ret, throw.
  destruct isStaked, gaugeAddress; split_all; reflexivity.
Qed.

(** X18. When the swap step needs a swap and [swapTokens] returns [null],
    [rebalance] fails, and neither [createPosition] nor [stakeToGauge] ever
    runs: the run is the same whatever they would do. *)
Theorem rebalance_null_swap_aborts (isStaked : bool) (gaugeAddress : option Z)
    (unstake : M unit) (plan : M (option (Rebalance.Direction * Z)))
    (swap : Z -> M (option Z)) (d : Rebalance.Direction) (a : Z)
    (Hp : forall w, fst (plan w) = Ok (Some (d, a)))
    (Hs : forall w, fst (swap a w) = Ok None)
    (createPosition createPosition' : M (option Z)) (stake stake' : Z -> M unit)
    (w : World) :
  Rebalance.rebalance isStaked gaugeAddress unstake plan swap createPosition stake w =
  Rebalance.rebalance isStaked gaugeAddress unstake plan swap createPosition' stake' w /\
  exists e, fst (Rebalance.rebalance isStaked gaugeAddress unstake plan swap
                  createPosition stake w) = Throw e.
Proof. eapply rebalance_null_swap_core; eassumption. Qed.

Lemma rebalance_null_swap_aborts_witness :
  Rebalance.rebalance true (Some 9) (ret tt) (ret (Some (Rebalance.ZeroForOne, 0)))
    swapTokensDirect (ret (Some 42)) (fun _ => ret tt) (freshWorld []) =
  Rebalance.rebalance true (Some 9) (ret tt) (ret (Some (Rebalance.ZeroForOne, 0)))
    swapTokensDirect (ret None) (fun _ => throw OtherError) (freshWorld []) /\
  exists e, fst (Rebalance.rebalance true (Some 9) (ret tt)
    (ret (Some (Rebalance.ZeroForOne, 0))) swapTokensDirect (ret (Some 42))
    (fun _ => ret tt) (freshWorld [])) = Throw e.
Proof.
  apply (rebalance_null_swap_aborts true (Some 9) (ret tt)
           (ret (Some (Rebalance.ZeroForOne, 0))) swapTokensDirect Rebalance.ZeroForOne 0);
  intros; reflexivity.
Defined.

End Stages.

(* ----------------------------------------------------------------- *)
(** ** Nonces *)

Section Nonces.

Import Swap.


(** Nonce bookkeeping of the signer: submitted nonces strictly decrease
    from the newest, and the next nonce handed out is above all of them. *)
Definition nonceInv (w : World) : Prop :=
  Sorted (fun a b => b < a) (sentNonces w) /\
  Forall (fun ev => ev <> EvErr NonceExpired) (oracle w) /\
  match noncePromise (nm w) with
  | None => 0 <= delta (nm w) /\ Forall (fun n => n < chainNonce w) (sentNonces w)
  | Some b => Forall (fun n => n < b + delta (nm w)) (sentNonces w)
  end.

(** [m] keeps [nonceInv] and only pushes nonces onto [sentNonces]. *)
Definition noncesGrow {A} (m : M A) : Prop :=
  forall w, nonceInv w ->
    nonceInv (snd (m w)) /\ exists l, sentNonces (snd (m w)) = l ++ sentNonces w.

Lemma noncesGrow_ret {A} (a : A) : noncesGrow (ret a).
Proof. intros w H. split; [exact H | exists []; reflexivity]. Qed.

Lemma noncesGrow_throw {A} (e : ErrKind) : noncesGrow (@throw A e).
Proof. intros w H. split; [exact H | exists []; reflexivity]. Qed.

Lemma noncesGrow_bind {A B} (m : M A) (k : A -> M B) :
  noncesGrow m -> (forall a, noncesGrow (k a)) -> noncesGrow (bind m k).
Proof.
  intros Hm Hk w H. unfold bind. destruct (Hm w H) as [H1 [l1 E1]].
  destruct (m w) as [[a|e] w1]; simpl in *.
  - destruct (Hk a w1 H1) as [H2 [l2 E2]]. split; [exact H2|].
    exists (l2 ++ l1). rewrite E2, E1, app_assoc. reflexivity.
  - split; [exact H1 | exists l1; exact E1].
Qed.

Lemma noncesGrow_catch {A} (m : M A) (h : ErrKind -> M A) :
  noncesGrow m -> (forall e, noncesGrow (h e)) -> noncesGrow (catch m h).
Proof.
  intros Hm Hh w H. unfold catch. destruct (Hm w H) as [H1 [l1 E1]].
  destruct (m w) as [[a|e] w1]; simpl in *.
  - split; [exact H1 | exists l1; exact E1].
  - destruct (Hh e w1 H1) as [H2 [l2 E2]]. split; [exact H2|].
    exists (l2 ++ l1). rewrite E2, E1, app_assoc. reflexivity.
Qed.

Lemma noncesGrow_if {A} (c : bool) (m1 m2 : M A) :
  noncesGrow m1 -> noncesGrow m2 -> noncesGrow (if c then m1 else m2).
Proof. destruct c; auto. Qed.

Lemma external_inv (w : World) :
  nonceInv w -> nonceInv (snd (external w)) /\
  sentNonces (snd (external w)) = sentNonces w /\
  nm (snd (external w)) = nm w /\
  fst (external w) <> Throw NonceExpired.
Proof.
  intros H. pose proof H as (Hs & Ho & Hn). unfold external.
  destruct (oracle w) as [|[| |e] r] eqn:Eo.
  - simpl. split; [exact H|]. split; [reflexivity|split; [reflexivity|discriminate]].
  - inversion Ho; subst. unfold nonceInv. simpl. split; [split; [|split]; assumption|].
    split; [reflexivity|split; [reflexivity|discriminate]].
  - inversion Ho; subst. unfold nonceInv. simpl. split; [split; [|split]; assumption|].
    split; [reflexivity|split; [reflexivity|discriminate]].
  - inversion Ho; subst. unfold nonceInv. simpl. split; [split; [|split]; assumption|].
    split; [reflexivity|split; [reflexivity|]]. intros E. injection E as ->. auto.
Qed.

Lemma noncesGrow_readAllowance : noncesGrow readAllowance.
Proof.
  intros w H. pose proof H as (Hs & Ho & Hn). unfold readAllowance.
  destruct (oracle w) as [|[| |e] r] eqn:Eo;
    [split; [exact H | exists []; reflexivity]|..];
    inversion Ho; subst; (split; [split; [|split]; assumption | exists []; reflexivity]).
Qed.

Lemma noncesGrow_external : noncesGrow external.
Proof.
  intros w H. destruct (external_inv w H) as (H1 & E & _ & _).
  split; [exact H1 | exists []; exact E].
Qed.

Lemma noncesGrow_countQuote : noncesGrow countQuote.
Proof. intros w H. split; [exact H | exists []; reflexivity]. Qed.

Lemma push_sorted (n : Z) (l : list Z) :
  Sorted (fun a b => b < a) l -> Forall (fun x => x < n) l ->
  Sorted (fun a b => b < a) (n :: l).
Proof.
  intros Hs Hf. constructor; [exact Hs|].
  destruct l as [|x l]; constructor. inversion Hf; assumption.
Qed.

Lemma Forall_lt_weaken (l : list Z) (a b : Z) :
  a <= b -> Forall (fun x => x < a) l -> Forall (fun x => x < b) l.
Proof. intros Hab Hf. eapply Forall_impl; [|exact Hf]. intros x Hx; cbv beta in *; lia. Qed.

Lemma nmSendTransaction_inv (w : World) :
  nonceInv w ->
  nonceInv (snd (nmSendTransaction w)) /\
  (exists l, sentNonces (snd (nmSendTransaction w)) = l ++ sentNonces w) /\
  (fst (nmSendTransaction w) = Throw NonceExpired ->
   Forall (fun n => n < chainNonce (snd (nmSendTransaction w)))
     (sentNonces (snd (nmSendTransaction w)))).
Proof.
  intros (Hs & Ho & Hn).
  set (base := match noncePromise (nm w) with Some n => n | None => chainNonce w end).
  assert (Hfresh : Forall (fun x => x < base + delta (nm w)) (sentNonces w) /\ 0 <= delta (nm w)
                   \/ (exists b, noncePromise (nm w) = Some b) /\
                      Forall (fun x => x < base + delta (nm w)) (sentNonces w)).
  { unfold base. destruct (noncePromise (nm w)) as [b|].
    - right. split; [eexists; reflexivity | exact Hn].
    - left. destruct Hn as [Hd Hf]. split; [|exact Hd].
      eapply Forall_lt_weaken; [|exact Hf]. lia. }
  assert (Hf : Forall (fun x => x < base + delta (nm w)) (sentNonces w))
    by (destruct Hfresh as [[? ?]|[? ?]]; assumption).
  clear Hfresh.
  assert (Hs' : Sorted (fun a b => b < a) (base + delta (nm w) :: sentNonces w))
    by (apply push_sorted; assumption).
  assert (Hf' : Forall (fun x => x < base + (delta (nm w) + 1)) (base + delta (nm w) :: sentNonces w)).
  { constructor; [lia|]. eapply Forall_lt_weaken; [|exact Hf]. lia. }
  unfold nmSendTransaction, bind, get, setNM, logSent, modify. cbn beta iota zeta.
  fold base.
  destruct (base + delta (nm w) <? chainNonce w) eqn:Elt.
  - simpl. split; [split; [|split]; assumption|]. split; [exists [base + delta (nm w)]; reflexivity|].
    intros _. apply Z.ltb_lt in Elt. constructor; [exact Elt|].
    eapply Forall_impl; [|exact Hf]. intros x Hx; cbv beta in *; lia.
  - match goal with |- context [external ?w1] =>
      assert (Hi : nonceInv w1) by (split; [|split]; assumption);
      destruct (external_inv w1 Hi) as (Hi' & Es & Enm & Ene);
      destruct (external w1) as [[[]|e] w2] eqn:Ee end; simpl in *.
    + split; [|split; [exists [base + delta (nm w)]; exact Es | discriminate]].
      destruct Hi' as (Hs2 & Ho2 & Hn2). split; [exact Hs2|]. split; [exact Ho2|].
      simpl. rewrite Enm in *. exact Hn2.
    + split; [exact Hi'|]. split; [exists [base + delta (nm w)]; exact Es|].
      intros E. injection E as ->. exfalso. apply Ene. reflexivity.
Qed.

Lemma sendTransaction_inv (w : World) :
  nonceInv w ->
  nonceInv (snd (sendTransaction w)) /\
  (exists l, sentNonces (snd (sendTransaction w)) = l ++ sentNonces w) /\
  (fst (sendTransaction w) = Throw NonceExpired ->
   Forall (fun n => n < chainNonce (snd (sendTransaction w)))
     (sentNonces (snd (sendTransaction w)))).
Proof.
  intros H. unfold sendTransaction, bind.
  destruct (external_inv w H) as (H1 & Es & _ & Ene).
  destruct (external w) as [[[]|e] w1]; simpl in *.
  - destruct (nmSendTransaction_inv w1 H1) as (H2 & [l E2] & Hx).
    split; [exact H2|]. split; [exists l; rewrite E2, Es; reflexivity | exact Hx].
  - split; [exact H1|]. split; [exists []; exact Es|].
    intros E. injection E as ->. exfalso. apply Ene. reflexivity.
Qed.

Lemma noncesGrow_nmSendTransaction : noncesGrow nmSendTransaction.
Proof.
  intros w H. destruct (nmSendTransaction_inv w H) as (? & ? & _). split; assumption.
Qed.

Lemma noncesGrow_sendTransaction : noncesGrow sendTransaction.
Proof. intros w H. destruct (sendTransaction_inv w H) as (? & ? & _). split; assumption. Qed.

Lemma reset_inv (w : World) :
  nonceInv w -> Forall (fun n => n < chainNonce w) (sentNonces w) ->
  nonceInv (snd (reset w)) /\ sentNonces (snd (reset w)) = sentNonces w.
Proof.
  intros (Hs & Ho & _) Hf. split; [|reflexivity].
  split; [exact Hs|]. split; [exact Ho|]. simpl. split; [lia | exact Hf].
Qed.

Lemma noncesGrow_submitWithNonceRetry : noncesGrow submitWithNonceRetry.
Proof.
  intros w H. unfold submitWithNonceRetry, catch.
  destruct (sendTransaction_inv w H) as (H1 & [l1 E1] & Hx).
  destruct (sendTransaction w) as [[n|e] w1]; simpl in *.
  - split; [exact H1 | exists l1; exact E1].
  - destruct e; simpl;
      try (split; [exact H1 | exists l1; exact E1]).
    unfold bind.
    destruct (reset_inv w1 H1 (Hx eq_refl)) as [H2 E2].
    destruct (reset w1) as [[[]|e] w2] eqn:Er; [|discriminate]. cbv beta iota in *. simpl in E2.
    destruct (sendTransaction_inv w2 H2) as (H3 & [l3 E3] & _).
    split; [exact H3|]. exists (l3 ++ l1). rewrite E3, E2, E1, app_assoc. reflexivity.
Qed.

Create HintDb nonces.
#[local] Hint Resolve noncesGrow_ret noncesGrow_throw noncesGrow_bind noncesGrow_catch
  noncesGrow_if noncesGrow_external noncesGrow_countQuote
  noncesGrow_sendTransaction noncesGrow_submitWithNonceRetry
  noncesGrow_readAllowance noncesGrow_nmSendTransaction : nonces.
#[local] Hint Extern 1 (forall _, noncesGrow _) => intro : nonces.

Lemma noncesGrow_approveToken : noncesGrow approveToken.
Proof. unfold approveToken. eauto 10 with nonces. Qed.

Lemma noncesGrow_permit2Approve : noncesGrow permit2Approve.
Proof. unfold permit2Approve. eauto 10 with nonces. Qed.

#[local] Hint Resolve noncesGrow_approveToken noncesGrow_permit2Approve : nonces.

Lemma noncesGrow_createPosition : noncesGrow createPosition.
Proof. unfold createPosition. eauto 20 with nonces. Qed.

Lemma noncesGrow_runSwapAttempt : noncesGrow runSwapAttempt.
Proof. unfold runSwapAttempt. eauto 20 with nonces. Qed.

#[local] Hint Resolve noncesGrow_runSwapAttempt : nonces.

Lemma noncesGrow_swapTokensKyber (a : Z) : noncesGrow (swapTokensKyber a).
Proof. unfold swapTokensKyber. eauto 20 with nonces. Qed.

Lemma noncesGrow_swapTokensDirect (a : Z) : noncesGrow (swapTokensDirect a).
Proof. unfold swapTokensDirect. eauto 20 with nonces. Qed.

Lemma sorted_gt_NoDup (l : list Z) : Sorted (fun a b => b < a) l -> NoDup l.
Proof.
  intros Hs. apply Sorted_StronglySorted in Hs; [|intros x y z; lia].
  induction Hs as [|x l Hs IH Hall]; constructor; [|exact IH].
  intros Hin. rewrite Forall_forall in Hall. specialize (Hall x Hin). lia.
Qed.

Lemma sorted_gt_app (l1 l2 : list Z) :
  Sorted (fun a b => b < a) (l1 ++ l2) ->
  Forall (fun n => Forall (fun n' => n' < n) l2) l1.
Proof.
  intros Hs. apply Sorted_StronglySorted in Hs; [|intros x y z; lia].
  induction l1 as [|x l1 IH]; constructor; inversion Hs; subst.
  - rewrite Forall_forall in *. intros y Hy. apply H2, in_or_app. right; exact Hy.
  - apply IH. assumption.
Qed.

(** X19. Under the signer's nonce invariant (and a node whose other answers
    never report NONCE_EXPIRED: it reports it only through the nonce check,
    which a stale cache does trigger), [sendTransaction], the NONCE_EXPIRED
    retry block, both [swapTokens] variants with their approvals, and
    [createPosition] keep the invariant, submit each nonce at most once, and
    every nonce they submit is above all earlier ones, also across the
    [wallet.reset()] retry. *)
Theorem nonce_never_reused (w : World) (H : nonceInv w) (a : Z) :
  Forall (fun w' => nonceInv w' /\ NoDup (sentNonces w') /\
            exists l, sentNonces w' = l ++ sentNonces w /\
              Forall (fun n => Forall (fun n' => n' < n) (sentNonces w)) l)
    [snd (sendTransaction w); snd (submitWithNonceRetry w);
     snd (swapTokensDirect a w); snd (swapTokensKyber a w);
     snd (createPosition w)].
Proof.
  assert (G : forall A (m : M A), noncesGrow m ->
    nonceInv (snd (m w)) /\ NoDup (sentNonces (snd (m w))) /\
    exists l, sentNonces (snd (m w)) = l ++ sentNonces w /\
      Forall (fun n => Forall (fun n' => n' < n) (sentNonces w)) l).
  { intros A m Hm. destruct (Hm w H) as [H1 [l E]].
    split; [exact H1|]. split; [apply sorted_gt_NoDup, H1|].
    exists l. split; [exact E|]. apply sorted_gt_app. rewrite <- E. apply H1. }
  repeat constructor; apply G;
    auto using noncesGrow_sendTransaction, noncesGrow_submitWithNonceRetry,
      noncesGrow_swapTokensDirect, noncesGrow_swapTokensKyber,
      noncesGrow_createPosition.
Qed.

Lemma nonce_never_reused_witness :
  Forall (fun w' => nonceInv w' /\ NoDup (sentNonces w') /\
            exists l, sentNonces w' = l ++ sentNonces (freshWorld [EvOk; EvErr CallFailed]) /\
              Forall (fun n => Forall (fun n' => n' < n)
                                 (sentNonces (freshWorld [EvOk; EvErr CallFailed]))) l)
    [snd (sendTransaction (freshWorld [EvOk; EvErr CallFailed]));
     snd (submitWithNonceRetry (freshWorld [EvOk; EvErr CallFailed]));
     snd (swapTokensDirect 5 (freshWorld [EvOk; EvErr CallFailed]));
     snd (swapTokensKyber 5 (freshWorld [EvOk; EvErr CallFailed]));
     snd (createPosition (freshWorld [EvOk; EvErr CallFailed]))].
Proof.
  apply nonce_never_reused.
  split; [constructor|]. split; [repeat constructor; discriminate|].
  simpl. split; [lia | constructor].
Defined.

(** The signer's cached nonce agrees with the chain. *)
Definition synced (w : World) : Prop :=
  match noncePromise (nm w) with
  | None => delta (nm w) = 0
  | Some b => b + delta (nm w) = chainNonce w
  end.

Lemma external_all_ok (w : World) :
  Forall (eq EvOk) (oracle w) ->
  exists w', external w = (Ok tt, w') /\ chainNonce w' = chainNonce w /\
    nm w' = nm w /\ Forall (eq EvOk) (oracle w').
Proof.
  intros Ho. unfold external. destruct (oracle w) as [|ev r] eqn:Eo.
  - exists w. rewrite Eo. auto.
  - inversion Ho; subst. eexists. split; [reflexivity|]. simpl. auto.
Qed.

Lemma sendTransaction_synced (w : World) :
  synced w -> Forall (eq EvOk) (oracle w) ->
  exists w', sendTransaction w = (Ok (chainNonce w), w') /\
    chainNonce w' = chainNonce w + 1 /\ synced w' /\ Forall (eq EvOk) (oracle w').
Proof.
  intros Hs Ho. unfold sendTransaction, bind.
  destruct (external_all_ok w Ho) as (w1 & E1 & C1 & N1 & O1). rewrite E1.
  unfold nmSendTransaction, bind, get, setNM, logSent, modify. cbn beta iota zeta.
  assert (Hn : match noncePromise (nm w1) with Some n => n | None => chainNonce w1 end
               + delta (nm w1) = chainNonce w1).
  { rewrite N1, C1. unfold synced in Hs. destruct (noncePromise (nm w)); lia. }
  rewrite Hn, Z.ltb_irrefl.
  match goal with |- context [external ?w2] =>
    assert (O2 : Forall (eq EvOk) (oracle w2)) by exact O1;
    destruct (external_all_ok w2 O2) as (w3 & E3 & C3 & N3 & O3); rewrite E3 end.
  simpl in *. rewrite C1. eexists. split; [reflexivity|].
  split; [reflexivity|]. split; [|exact O3].
  unfold synced. simpl. rewrite N3. simpl. lia.
Qed.

(** X20. With the signer's cached nonce in step with the chain and no failing
    calls, [k] consecutive [sendTransaction] calls use the nonces [n, n+1,
    ..., n+k-1] from the chain's next nonce [n] and leave the cache in step
    at [n+k]. *)
Theorem sendMany_consecutive (k : nat) (w : World)
    (Hs : synced w) (Ho : Forall (eq EvOk) (oracle w)) :
  fst (Rebalance.sendMany k w) =
    Ok (map (fun i => chainNonce w + Z.of_nat i) (seq 0 k)) /\
  chainNonce (snd (Rebalance.sendMany k w)) = chainNonce w + Z.of_nat k /\
  synced (snd (Rebalance.sendMany k w)).
Proof.
  revert w Hs Ho. induction k as [|k IH]; intros w Hs Ho.
  - simpl. split; [reflexivity|]. split; [lia | exact Hs].
  - cbn [Rebalance.sendMany]. unfold bind.
    destruct (sendTransaction_synced w Hs Ho) as (w1 & E1 & C1 & S1 & O1). rewrite E1.
    destruct (IH w1 S1 O1) as (F & C & S).
    destruct (Rebalance.sendMany k w1) as [[ns|e] w2]; simpl in F; [|discriminate].
    injection F as ->. simpl in *. split; [|split; [lia | exact S]].
    f_equal. f_equal; [lia|]. rewrite <- seq_shift, map_map.
    apply map_ext. intros i. rewrite C1. lia.
Qed.

Lemma sendMany_consecutive_witness :
  fst (Rebalance.sendMany 3 (freshWorld [EvOk; EvOk])) = Ok [5; 6; 7] /\
  chainNonce (snd (Rebalance.sendMany 3 (freshWorld [EvOk; EvOk]))) = 8.
Proof.
  destruct (sendMany_consecutive 3 (freshWorld [EvOk; EvOk]))
    as (F & C & _); [reflexivity | repeat constructor |].
  rewrite F, C. split; reflexivity.
Defined.

End Nonces.

(* ----------------------------------------------------------------- *)
(** ** Kyber router allowlist *)

Section KyberAllowlist.

Import Ascii.
Local Open Scope char_scope.


Lemma split_nonnil (s : list ascii) : Kyber.split s <> [].
Proof.
  induction s as [|c r IH]; simpl; [discriminate|].
  destruct (ascii_dec c ","); [discriminate|]. destruct (Kyber.split r); discriminate.
Qed.

Lemma split_app_comma (a b : list ascii) :
  Kyber.split (a ++ "," :: b) = Kyber.split a ++ Kyber.split b.
Proof.
  induction a as [|c a IH]; simpl; [reflexivity|].
  destruct (ascii_dec c ","); [rewrite IH; reflexivity|].
  rewrite IH. pose proof (split_nonnil a) as Hn.
  destruct (Kyber.split a); [contradiction | reflexivity].
Qed.

Lemma split_no_comma (s : list ascii) :
  ~ In "," s -> Kyber.split s = [s].
Proof.
  induction s as [|c r IH]; intros Hn; simpl; [reflexivity|].
  destruct (ascii_dec c ",") as [->|Hc]; [exfalso; apply Hn; left; reflexivity|].
  rewrite IH; [reflexivity|]. intros H; apply Hn; right; exact H.
Qed.

Lemma trimStart_spaces (p s : list ascii) :
  Forall (fun c => Kyber.isSpace c = true) p ->
  Kyber.isSpace (hd " " s) = false ->
  Kyber.trimStart (p ++ s) = s.
Proof.
  intros Hp Hs. induction Hp as [|c p Hc Hp IH]; simpl.
  - destruct s as [|d s]; [discriminate|]. simpl in *. rewrite Hs. reflexivity.
  - rewrite Hc. exact IH.
Qed.

Lemma last_rev_hd (s : list ascii) (d : ascii) : hd d (rev s) = last s d.
Proof.
  induction s as [|c s IH] using rev_ind; [reflexivity|].
  rewrite rev_app_distr, last_last. reflexivity.
Qed.

Lemma trim_padded (p e q : list ascii) :
  Forall (fun c => Kyber.isSpace c = true) p ->
  Forall (fun c => Kyber.isSpace c = true) q ->
  Kyber.isSpace (hd " " e) = false -> Kyber.isSpace (last e " ") = false ->
  Kyber.trim (p ++ e ++ q) = e.
Proof.
  intros Hp Hq Hh Hl. unfold Kyber.trim.
  rewrite trimStart_spaces by (first [exact Hp | destruct e; [discriminate | exact Hh]]).
  rewrite rev_app_distr, trimStart_spaces.
  - apply rev_involutive.
  - apply Forall_rev, Hq.
  - rewrite last_rev_hd. exact Hl.
Qed.

Lemma kyber_eqb_refl (a : list ascii) : Kyber.eqb a a = true.
Proof. unfold Kyber.eqb. destruct (list_eq_dec ascii_dec a a); [reflexivity | contradiction]. Qed.

(** X21. A [KYBER_ALLOWED_ROUTERS] made only of commas and blanks parses to
    an empty allowlist, and [validateKyberRouter] then accepts every router. *)
Theorem allowedRouters_blank_disables (env : list ascii)
    (H : Forall (fun c => c = "," \/ Kyber.isSpace c = true) env) :
  Kyber.allowedRouters (Some env) = [] /\
  forall routerAddress, Kyber.validateKyberRouter (Kyber.allowedRouters (Some env))
                          routerAddress = true.
Proof.
  assert (E : Kyber.allowedRouters (Some env) = []).
  { unfold Kyber.allowedRouters.
    induction H as [|c r [->|Hc] Hr IH].
    - reflexivity.
    - simpl. exact IH.
    - simpl. assert (Hc' : c <> ",") by (intros ->; discriminate).
      destruct (ascii_dec c ",") as [|_]; [contradiction|].
      pose proof (split_nonnil r) as Hn.
      destruct (Kyber.split r) as [|x xs] eqn:Es; [contradiction|].
      simpl in IH |- *.
      destruct (Kyber.nonEmpty (Kyber.trim x)) eqn:Ex; [discriminate|].
      assert (Ht : Kyber.trim (c :: x) = Kyber.trim x)
        by (unfold Kyber.trim; simpl; rewrite Hc; reflexivity).
      rewrite Ht, Ex. exact IH. }
  split; [exact E|]. intros r. rewrite E. reflexivity.
Qed.

(** X22. A router listed in [KYBER_ALLOWED_ROUTERS] between commas, with
    surrounding blanks and in any letter case, is in the parsed allowlist and
    accepted by [validateKyberRouter]. *)
Theorem allowedRouters_padded_entry_accepts (pre post p q e routerAddress : list ascii)
    (Hp : Forall (fun c => Kyber.isSpace c = true) p)
    (Hq : Forall (fun c => Kyber.isSpace c = true) q)
    (He : ~ In "," e)
    (Hh : Kyber.isSpace (hd " " e) = false) (Hl : Kyber.isSpace (last e " ") = false)
    (Hcase : Kyber.toLowerCase e = Kyber.toLowerCase routerAddress) :
  In e (Kyber.allowedRouters (Some (pre ++ "," :: p ++ e ++ q ++ "," :: post))) /\
  Kyber.validateKyberRouter
    (Kyber.allowedRouters (Some (pre ++ "," :: p ++ e ++ q ++ "," :: post)))
    routerAddress = true.
Proof.
  assert (Hp' : ~ In "," p).
  { intros Hin. rewrite Forall_forall in Hp. specialize (Hp _ Hin). discriminate. }
  assert (Hq' : ~ In "," q).
  { intros Hin. rewrite Forall_forall in Hq. specialize (Hq _ Hin). discriminate. }
  assert (Hin : In e (Kyber.allowedRouters (Some (pre ++ "," :: p ++ e ++ q ++ "," :: post)))).
  { unfold Kyber.allowedRouters.
    replace (pre ++ "," :: p ++ e ++ q ++ "," :: post)
      with (pre ++ "," :: ((p ++ e ++ q) ++ "," :: post))
      by (rewrite <- !app_assoc; reflexivity).
    rewrite !split_app_comma.
    rewrite (split_no_comma (p ++ e ++ q))
      by (rewrite !in_app_iff; intuition).
    simpl map. rewrite !map_app. simpl map. rewrite trim_padded by assumption.
    apply filter_In. split; [|destruct e; [discriminate | reflexivity]].
    apply in_or_app. right. left. reflexivity. }
  split; [exact Hin|].
  destruct (Kyber.allowedRouters _) as [|x xs] eqn:Ea; [destruct Hin|].
  apply existsb_exists. exists e. split; [exact Hin|]. rewrite Hcase. apply kyber_eqb_refl.
Qed.

Lemma allowedRouters_blank_disables_witness :
  Kyber.allowedRouters (Some [" "; ","; " "; ","]) = [] /\
  forall routerAddress,
    Kyber.validateKyberRouter (Kyber.allowedRouters (Some [" "; ","; " "; ","]))
      routerAddress = true.
Proof.
  apply allowedRouters_blank_disables.
  repeat (apply Forall_cons; [first [left; reflexivity | right; reflexivity] |]).
  apply Forall_nil.
Defined.

Lemma allowedRouters_padded_entry_accepts_witness :
  In ["0"; "X"; "A"] (Kyber.allowedRouters (Some ([] ++ "," :: [" "] ++ ["0"; "X"; "A"] ++ [" "] ++ "," :: []))) /\
  Kyber.validateKyberRouter
    (Kyber.allowedRouters (Some ([] ++ "," :: [" "] ++ ["0"; "X"; "A"] ++ [" "] ++ "," :: [])))
    ["0"; "x"; "a"] = true.
Proof.
  apply allowedRouters_padded_entry_accepts.
  - repeat constructor.
  - repeat constructor.
  - simpl. intuition discriminate.
  - reflexivity.
  - reflexivity.
  - vm_compute. reflexivity.
Defined.

End KyberAllowlist.
